(** * azure-openai-proxy: backend selection, health tracking and failover

    A shallow embedding of the Go packages [config], [loadbalancer] and
    [handlers] of the proxy, and the properties of its routing core.

    Conventions.
    - Go maps are [gmap]s; Go slices are lists, indexed with stdpp's
      lookup.
    - Machine integers are [Z] with the wrap-around written out where
      the code can reach it: the rotation cursor is a [uint64], the
      fail counter an [int32].
    - [*BackendStatus] pointers are allocated once by [Init] and then
      shared between the balancer and every slice handed out by
      [GetAllBackends]; a pointer is modelled by the place of its object
      (model name and position in the pool), and every write goes to the
      one store, the [LoadBalancer].
    - Locks are not modelled: every operation is taken as one atomic
      step of a sequential execution.
    - Instants are nanosecond counts; [time.Now] is an input. *)

From Stdlib Require Import ZArith Lia.
From stdpp Require Import base option list gmap strings fin_maps pretty.

Local Open Scope Z_scope.

(** ** Package config *)

Module config.

Record Backend := mkBackend {
  Endpoint : string;
  APIKey : string;
  Deployment : string;
  APIVersion : string
}.

Record ModelConfig := mkModelConfig {
  Backends : list Backend
}.

Record RetryConfig := mkRetryConfig {
  MaxAttempts : Z;
  Timeout : Z
}.

(** The [Server] and [Auth] parts of the configuration are read by the
    start-up code and the authentication middleware only. *)
Record Config := mkConfig {
  Models : gmap string ModelConfig;
  Retry : RetryConfig
}.

(** [GetBackendsForModel]: the empty list is the [nil] slice of a model
    that is not configured. *)
Definition GetBackendsForModel (c : Config) (model : string) : list Backend :=
  match Models c !! model with
  | Some modelConfig => Backends modelConfig
  | None => []
  end.

(** The [Auth] part of the configuration.  The two methods below are
    methods of [*Config] in the source; they read [c.Auth] and nothing
    else, and take it as their argument here. *)
Record APIKeyConfig := mkAPIKeyConfig {
  Name : string;
  Key : string
}.

Record AuthConfig := mkAuthConfig {
  Enabled : bool;
  Keys : list APIKeyConfig
}.

Definition IsAuthEnabled (auth : AuthConfig) : bool :=
  Enabled auth && (0 <? length (Keys auth))%nat.

(** [subtle.ConstantTimeCompare(x, y)]: 1 when the two byte strings
    have the same length and the same bytes, 0 otherwise. *)
Definition ConstantTimeCompare (x y : string) : Z :=
  if String.eqb x y then 1 else 0.

(** The loop of [ValidateAPIKey] over [c.Auth.Keys]. *)
Fixpoint matchKey (key : string) (keys : list APIKeyConfig) : string * bool :=
  match keys with
  | [] => (EmptyString, false)
  | k :: rest =>
      if ConstantTimeCompare key (Key k) =? 1 then (Name k, true)
      else matchKey key rest
  end.

Definition ValidateAPIKey (auth : AuthConfig) (key : string) : string * bool :=
  if negb (IsAuthEnabled auth) then (EmptyString, true)
  else matchKey key (Keys auth).

End config.

(** ** Machine arithmetic *)

Definition wrap_uint64 (z : Z) : Z := z mod 2 ^ 64.

Definition wrap_int32 (z : Z) : Z := (z + 2 ^ 31) mod 2 ^ 32 - 2 ^ 31.

(** ** Package time *)

Module time.

(** An instant, in nanoseconds. *)
Definition Time := Z.

(** A [time.Duration] is an [int64] count of nanoseconds. *)
Definition Duration := Z.

Definition Second : Duration := 1000000000.

Definition maxDuration : Duration := 2 ^ 63 - 1.
Definition minDuration : Duration := - 2 ^ 63.

(** [t.Sub(u)] saturates at the ends of the [Duration] range. *)
Definition Sub (t u : Time) : Duration :=
  Z.max minDuration (Z.min maxDuration (t - u)).

(** [time.Since(u)] read at the instant [now]. *)
Definition Since (now u : Time) : Duration := Sub now u.

End time.

(** ** Package loadbalancer *)

Module loadbalancer.

Record BackendStatus := mkBackendStatus {
  Backend : config.Backend;
  Healthy : bool;
  LastChecked : time.Time;
  FailCount : Z
}.

Record ModelBalancer := mkModelBalancer {
  backends : list BackendStatus;
  current : Z
}.

(** The [balancers] map of the [LoadBalancer] singleton. *)
Abbreviation LoadBalancer := (gmap string ModelBalancer).

(** A [*BackendStatus]: the pool that owns the object and its place
    in that pool. *)
Record BackendRef := mkRef {
  ref_model : string;
  ref_index : nat
}.

#[export] Instance BackendRef_eq_dec : EqDecision BackendRef.
Proof. solve_decision. Defined.

(** Reading and writing through a pointer. *)
Definition deref (lb : LoadBalancer) (p : BackendRef) : option BackendStatus :=
  b ← lb !! ref_model p; backends b !! ref_index p.

Definition update_backends (f : list BackendStatus → list BackendStatus)
    (b : ModelBalancer) : ModelBalancer :=
  {| backends := f (backends b); current := current b |}.

Definition store (p : BackendRef) (f : BackendStatus → BackendStatus)
    (lb : LoadBalancer) : LoadBalancer :=
  alter (update_backends (alter f (ref_index p))) (ref_model p) lb.

(** The zero [time.Time] of a status that was never marked. *)
Definition zeroTime : time.Time := 0.

Definition newBalancer (modelCfg : config.ModelConfig) : ModelBalancer :=
  {| backends :=
       (λ backend, {| Backend := backend; Healthy := true;
                      LastChecked := zeroTime; FailCount := 0 |})
         <$> config.Backends modelCfg;
     current := 0 |}.

(** [Init]: one balancer per configured model, every backend healthy.
    The function has no error result and no check on the pool size. *)
Definition Init (cfg : config.Config) (lb : LoadBalancer) : LoadBalancer :=
  map_fold (λ model modelCfg acc, <[model := newBalancer modelCfg]> acc)
           lb (config.Models cfg).

(** [atomic.AddUint64(&balancer.current, 1)]: the call returns the new
    value of the cursor, which the caller reads back from the result. *)
Definition bump (b : ModelBalancer) : ModelBalancer :=
  {| backends := backends b; current := wrap_uint64 (current b + 1) |}.

(** The probing loop of [GetNext]: [fuel] iterations are left, [b] is
    the balancer as the loop sees it.  Each iteration advances the
    cursor, then reads the health flag of the backend it lands on.  The
    index is below [n], the length of the pool, so the slice access
    cannot fail; the last branch is there for totality. *)
Fixpoint GetNext_loop (fuel : nat) (n : nat) (b : ModelBalancer)
    : option nat * ModelBalancer :=
  match fuel with
  | O => (None, b)
  | S fuel' =>
      let b' := bump b in
      let idx := Z.to_nat (current b' mod Z.of_nat n) in
      match backends b' !! idx with
      | Some backend =>
          if Healthy backend then (Some idx, b')
          else GetNext_loop fuel' n b'
      | None => (None, b')
      end
  end.

(** [GetNext]: [None] is the [nil] result. *)
Definition GetNext (model : string) (lb : LoadBalancer)
    : option BackendRef * LoadBalancer :=
  match lb !! model with
  | None => (None, lb)
  | Some balancer =>
      let n := length (backends balancer) in
      if decide (n = 0%nat) then (None, lb)
      else
        let '(found, balancer') := GetNext_loop n n balancer in
        let lb' := <[model := balancer']> lb in
        match found with
        | Some idx => (Some (mkRef model idx), lb')
        | None => (Some (mkRef model 0), lb')
        end
  end.

(** [GetAllBackends]: the cursor is only loaded.  [startIdx] and [i]
    are both below the length of the pool, so their sum stays far from
    the range of [int] and is taken in [nat]. *)
Definition GetAllBackends (model : string) (lb : LoadBalancer)
    : option (list BackendRef) * LoadBalancer :=
  match lb !! model with
  | None => (None, lb)
  | Some balancer =>
      let n := length (backends balancer) in
      if decide (n = 0%nat) then (None, lb)
      else
        let startIdx := Z.to_nat (current balancer mod Z.of_nat n) in
        (Some ((λ i, mkRef model ((startIdx + i) `mod` n)%nat) <$> seq 0 n), lb)
  end.

Definition markUnhealthy (now : time.Time) (s : BackendStatus) : BackendStatus :=
  {| Backend := Backend s; Healthy := false; LastChecked := now;
     FailCount := wrap_int32 (FailCount s + 1) |}.

Definition markHealthy (now : time.Time) (s : BackendStatus) : BackendStatus :=
  {| Backend := Backend s; Healthy := true; LastChecked := now;
     FailCount := 0 |}.

(** [MarkUnhealthy]: nothing happens for an unknown model name;
    otherwise the object behind [backend] is written, whichever pool
    it belongs to. *)
Definition MarkUnhealthy (model : string) (backend : BackendRef)
    (now : time.Time) (lb : LoadBalancer) : LoadBalancer :=
  match lb !! model with
  | None => lb
  | Some _ => store backend (markUnhealthy now) lb
  end.

Definition MarkHealthy (model : string) (backend : BackendRef)
    (now : time.Time) (lb : LoadBalancer) : LoadBalancer :=
  match lb !! model with
  | None => lb
  | Some _ => store backend (markHealthy now) lb
  end.

Definition defaultRecoveryTimeout : time.Duration := 30 * time.Second.

(** One backend of the sweep; [now] is the instant at which
    [time.Since] is read for it. *)
Definition recover (now : time.Time) (s : BackendStatus) : BackendStatus :=
  if negb (Healthy s) && (defaultRecoveryTimeout <? time.Since now (LastChecked s))
  then {| Backend := Backend s; Healthy := true;
          LastChecked := LastChecked s; FailCount := FailCount s |}
  else s.

(** One tick of the goroutine started by [StartHealthCheck].  The
    clock is read once per backend: [clock model i] is the reading for
    the backend at place [i] of the pool of [model]. *)
Definition healthCheckTick (clock : string → nat → time.Time)
    (lb : LoadBalancer) : LoadBalancer :=
  map_imap (λ model balancer,
    Some (update_backends (imap (λ i s, recover (clock model i) s)) balancer)) lb.

(** [StartHealthCheck]: the goroutine sweeps once per tick of its
    ticker.  [ticks] lists the clocks of the ticks that fire during the
    execution under study, in order; the interval only decides when
    they fire. *)
Definition StartHealthCheck (ticks : list (string → nat → time.Time))
    (lb : LoadBalancer) : LoadBalancer :=
  foldl (λ lb clock, healthCheckTick clock lb) lb ticks.

Definition HasModel (model : string) (lb : LoadBalancer) : bool :=
  bool_decide (is_Some (lb !! model)).

End loadbalancer.

(** ** Package handlers *)

Module handlers.

Import loadbalancer.

(** A [[]byte]. *)
Abbreviation bytes := (list Byte.byte).

(** *** The request transformer *)

Section transform.

(** The values [json.Unmarshal] stores in a [map[string]interface{}].
    The transformer moves them around and never looks inside. *)
Context {Value : Type}.

(** [encoding/json] is not part of the repository: both directions
    are parameters, [None] standing for a non-nil error.  A document
    that is not a JSON object is an error of [Unmarshal]. *)
Variable Unmarshal : bytes → option (gmap string Value).
Variable Marshal : gmap string Value → option bytes.

Definition unsupportedParams : list string :=
  ["chat_template_kwargs"; "enable_thinking"].

(** The first rewrite: the pair is the map and the [modified] flag. *)
Definition renameMaxTokens (data : gmap string Value)
    : gmap string Value * bool :=
  match data !! "max_tokens" with
  | Some maxTokens =>
      match data !! "max_completion_tokens" with
      | None =>
          (delete "max_tokens" (<["max_completion_tokens" := maxTokens]> data),
           true)
      | Some _ => (data, false)
      end
  | None => (data, false)
  end.

(** One iteration of the loop over [unsupportedParams]. *)
Definition removeParam (st : gmap string Value * bool) (param : string)
    : gmap string Value * bool :=
  match st.1 !! param with
  | Some _ => (delete param st.1, true)
  | None => st
  end.

Definition transformData (data : gmap string Value)
    : gmap string Value * bool :=
  foldl removeParam (renameMaxTokens data) unsupportedParams.

Definition transformRequestBody (body : bytes) : bytes :=
  match Unmarshal body with
  | None => body
  | Some data =>
      let '(data', modified) := transformData data in
      if modified then
        match Marshal data' with
        | Some newBody => newBody
        | None => body
        end
      else body
  end.

End transform.

(** *** The dispatcher *)

(** An [error] value: its [Error()] text, and whether it reports the
    cancellation of the inbound request's context. *)
Record error := mkError {
  Error : string;
  isCanceled : bool
}.

(** [fmt.Errorf("backend returned status %d", code)] *)
Definition statusError (code : Z) : error :=
  {| Error := "backend returned status " +:+ pretty code;
     isCanceled := false |}.

(** What the dispatcher reads of an [*http.Response]. *)
Record Response := mkResponse {
  StatusCode : Z;
  ContentType : string;
  Body : bytes
}.

(** What the outside world does during one iteration of the retry
    loop: whether the inbound context is done when the loop polls it,
    whether building the outbound request fails, what [client.Do]
    returns, and the clock reading taken by the health update. *)
Record Attempt := mkAttempt {
  ctxDone : bool;
  newRequestErr : option error;
  doResult : error + Response;
  now : time.Time
}.

(** The health update made by an iteration, with the clock reading
    it stored. *)
Inductive Mark :=
| MarkedUnhealthy (now : time.Time)
| MarkedHealthy (now : time.Time)
| NotMarked.

(** What became of an attempt: [http.NewRequestWithContext] failed,
    [client.Do] failed, the backend answered with a status of 500 or
    more, or it answered with a lower status. *)
Inductive Result :=
| RequestNotBuilt (err : error)
| CallFailed (err : error)
| ServerError (resp : Response)
| Answered (resp : Response).

(** The record of one iteration that got past the cancellation poll. *)
Record AttemptLog := mkLog {
  at_backend : BackendRef;
  at_url : string;
  at_body : bytes;
  at_result : Result;
  at_mark : Mark
}.

(** How the handler ends: with [c.JSON(code, gin.H{"error": err,
    "detail": detail})], with a call to [handleStreamResponse] or to
    [handleNormalResponse] on the backend's response, with a plain
    [return] after the inbound context was found done, or with a
    run-time panic. *)
Inductive Outcome :=
| JSON (code : Z) (err : string) (detail : option string)
| StreamResponse (resp : Response)
| NormalResponse (resp : Response)
| Cancelled
| Panicked.

Definition StatusServiceUnavailable : Z := 503.

(** [strings.TrimSuffix(s, "/")] *)
Fixpoint TrimSuffix_slash (s : string) : string :=
  match s with
  | EmptyString => EmptyString
  | String c EmptyString => if Ascii.eqb c (Ascii.ascii_of_nat 47) then EmptyString else s
  | String c rest => String c (TrimSuffix_slash rest)
  end.

(** [strings.Contains(s, substr)] *)
Fixpoint Contains (s substr : string) : bool :=
  String.prefix substr s ||
  match s with
  | EmptyString => false
  | String _ rest => Contains rest substr
  end.

Definition targetURL (backend : config.Backend) (apiType : string) : string :=
  let apiVersion :=
    if decide (config.APIVersion backend = "") then "2024-02-01"
    else config.APIVersion backend in
  if decide (apiType = "responses") then
    TrimSuffix_slash (config.Endpoint backend) +:+ "/openai/responses?api-version="
      +:+ apiVersion
  else
    TrimSuffix_slash (config.Endpoint backend) +:+ "/openai/deployments/"
      +:+ config.Deployment backend +:+ "/" +:+ apiType +:+ "?api-version="
      +:+ apiVersion.

Section dispatch.

Variable cfg : config.Config.
Variable env : nat → Attempt.
Variable model : string.
Variable body : bytes.
Variable apiType : string.

(** The result of one pass through the loop body. *)
Inductive Step :=
| Continue (lb : LoadBalancer) (lastErr : option error) (log : AttemptLog)
| Return (lb : LoadBalancer) (log : option AttemptLog) (out : Outcome).

(** The body of the retry loop at index [i]. *)
Definition attempt (backends : list BackendRef) (i : nat)
    (lb : LoadBalancer) : Step :=
  if ctxDone (env i) then Return lb None Cancelled
  else
    match backends !! (i `mod` length backends)%nat with
    | None => Return lb None Panicked
    | Some backend =>
        match deref lb backend with
        | None => Return lb None Panicked
        | Some status =>
            let url := targetURL (Backend status) apiType in
            let log := mkLog backend url body in
            match newRequestErr (env i) with
            | Some err => Continue lb (Some err) (log (RequestNotBuilt err) NotMarked)
            | None =>
                match doResult (env i) with
                | inl err =>
                    Continue (MarkUnhealthy model backend (now (env i)) lb)
                             (Some err)
                             (log (CallFailed err) (MarkedUnhealthy (now (env i))))
                | inr resp =>
                    if 500 <=? StatusCode resp then
                      Continue (MarkUnhealthy model backend (now (env i)) lb)
                               (Some (statusError (StatusCode resp)))
                               (log (ServerError resp) (MarkedUnhealthy (now (env i))))
                    else
                      Return (MarkHealthy model backend (now (env i)) lb)
                             (Some (log (Answered resp) (MarkedHealthy (now (env i)))))
                             (if Contains (ContentType resp) "text/event-stream"
                              then StreamResponse resp
                              else NormalResponse resp)
                end
            end
        end
    end.

(** [for i := 0; i < maxAttempts; i++]: [remaining] iterations are
    left before the index reaches [maxAttempts]. *)
Fixpoint retryLoop (backends : list BackendRef) (remaining : nat) (i : nat)
    (lb : LoadBalancer) (lastErr : option error)
    : LoadBalancer * list AttemptLog * Outcome :=
  match remaining with
  | O =>
      match lastErr with
      | Some err =>
          (lb, [], JSON StatusServiceUnavailable "all backends failed"
                        (Some (Error err)))
      | None => (lb, [], Panicked)
      end
  | S remaining' =>
      match attempt backends i lb with
      | Return lb' log out => (lb', option_list log, out)
      | Continue lb' lastErr' log =>
          let '(lb'', logs, out) :=
            retryLoop backends remaining' (S i) lb' lastErr' in
          (lb'', log :: logs, out)
      end
  end.

Definition attemptBound (backends : list BackendRef) : Z :=
  let maxAttempts := config.MaxAttempts (config.Retry cfg) in
  if Z.of_nat (length backends) <? maxAttempts
  then Z.of_nat (length backends) else maxAttempts.

Definition proxyWithModel (lb : LoadBalancer)
    : LoadBalancer * list AttemptLog * Outcome :=
  let '(r, lb) := GetAllBackends model lb in
  let backends := default [] r in
  if decide (length backends = 0%nat) then
    (lb, [], JSON StatusServiceUnavailable "no backends available" None)
  else
    retryLoop backends (Z.to_nat (attemptBound backends)) 0 lb None.

End dispatch.

(** *** The entry of a request *)

Definition maxBodySize : Z := 10 * 1024 * 1024.

Definition StatusBadRequest : Z := 400.
Definition StatusRequestEntityTooLarge : Z := 413.

(** The body of the inbound request as a stream: the bytes it delivers
    when it is read to its end, whether it then ends with an error
    instead of [io.EOF], and, for such a break, whether the error is
    returned by the call of [Read] that returns the last of the bytes
    ([n > 0] with a non-nil error) or by the call after it. *)
Record RequestBody := mkRequestBody {
  sent : bytes;
  broken : bool;
  brokenWithData : bool
}.

(** [io.ReadAll(io.LimitReader(c.Request.Body, maxBodySize))]; [None]
    is a non-nil error.  The limited reader passes on what the body
    returns, error included, cuts the buffer to the bytes it may still
    read, and answers [io.EOF] without reading the body once it has
    read [maxBodySize] bytes; [io.ReadAll] stops at the first error and
    returns it unless it is [io.EOF].  So a break is seen when the body
    ends below the limit, and also when the body ends at the limit with
    the error in the same [Read] as its last bytes; past that the body
    is not read any more. *)
Definition readBody (r : RequestBody) : option bytes :=
  if Z.of_nat (length (sent r)) <? maxBodySize then
    if broken r then None else Some (sent r)
  else if (Z.of_nat (length (sent r)) =? maxBodySize)
          && broken r && brokenWithData r then None
  else Some (take (Z.to_nat maxBodySize) (sent r)).

Section request.

Context {Value : Type}.
Variable Unmarshal : bytes → option (gmap string Value).
Variable Marshal : gmap string Value → option bytes.

(** [json.Unmarshal(body, &req)] into the struct with the one field
    [Model]: [None] for a non-nil error, otherwise the field after the
    call. *)
Variable UnmarshalModel : bytes → option string.

Definition extractModel (body : bytes) : string :=
  match UnmarshalModel body with
  | None => EmptyString
  | Some model => model
  end.

Variable cfg : config.Config.
Variable env : nat → Attempt.

Definition handleOpenAIRequest (apiType : string) (r : RequestBody)
    (lb : LoadBalancer) : LoadBalancer * list AttemptLog * Outcome :=
  match readBody r with
  | None => (lb, [], JSON StatusBadRequest "failed to read request body" None)
  | Some body =>
      if maxBodySize <=? Z.of_nat (length body) then
        (lb, [], JSON StatusRequestEntityTooLarge "request body too large" None)
      else
        let model := extractModel body in
        if decide (model = EmptyString) then
          (lb, [], JSON StatusBadRequest "model field is required" None)
        else if negb (HasModel model lb) then
          (lb, [], JSON StatusBadRequest
                        ("model " +:+ model +:+ " is not configured") None)
        else
          proxyWithModel cfg env model
            (transformRequestBody Unmarshal Marshal body) apiType lb
  end.

Definition HandleEmbeddings := handleOpenAIRequest "embeddings".
Definition HandleChatCompletions := handleOpenAIRequest "chat/completions".
Definition HandleResponses := handleOpenAIRequest "responses".

End request.

(** *** The streaming relay *)

(** One result of [resp.Body.Read(buf)]: the bytes [buf[:n]] and the
    error, [None] for nil. *)
Inductive ReadError := EOF | ReadFailed.

Record ReadResult := mkRead {
  rd_data : bytes;
  rd_err : option ReadError
}.

(** The size of the buffer the closure reads into. *)
Definition streamBufferSize : nat := 4096.

(** The closure [handleStreamResponse] hands to [c.Stream], for one
    result of [Read] and one result of [w.Write]: the chunk that was
    written and flushed, if any, and the value returned ([true] asks
    for another round). *)
Definition streamStep (rd : ReadResult) (writeOk : bool) : option bytes * bool :=
  if (0 <? length (rd_data rd))%nat then
    if writeOk then (Some (rd_data rd), bool_decide (rd_err rd = None))
    else (None, false)
  else (None, bool_decide (rd_err rd = None)).

(** [c.Stream(step)] of gin: the step is called again and again until
    it returns [false] or the client is found gone.  [reads] are the
    results the body gives to the successive calls of [Read];
    [clientGone i] and [writeOk i] say what round [i] finds. *)
Fixpoint Stream (clientGone writeOk : nat → bool) (reads : list ReadResult)
    (i : nat) : list bytes :=
  match reads with
  | [] => []
  | rd :: rest =>
      if clientGone i then []
      else
        let '(chunk, keepOpen) := streamStep rd (writeOk i) in
        option_list chunk ++
          (if keepOpen then Stream clientGone writeOk rest (S i) else [])
  end.

(** [handleStreamResponse]: the headers it sets, and the chunks the
    caller receives. *)
Definition handleStreamResponse (clientGone writeOk : nat → bool)
    (reads : list ReadResult) : list (string * string) * list bytes :=
  ([("Content-Type", "text/event-stream"); ("Cache-Control", "no-cache");
    ("Connection", "keep-alive"); ("Transfer-Encoding", "chunked")],
   Stream clientGone writeOk reads 0).

(** *** The relay of a whole response *)

(** What [handleNormalResponse] writes after the headers: the call
    [c.JSON(code, gin.H{"error": err})] or the call
    [c.Data(code, contentType, data)]. *)
Inductive Written :=
| WroteJSON (code : Z) (err : string)
| WroteData (code : Z) (contentType : string) (data : bytes).

Definition StatusInternalServerError : Z := 500.

(** [handleNormalResponse], the routine that an outcome
    [NormalResponse resp] stands for.  [header] is [resp.Header] in the
    order in which the [range] visits its keys; [readFails] says
    whether [io.ReadAll(resp.Body)] returns a non-nil error instead of
    the bytes of the body.  The result is the list of the calls
    [c.Header(key, value)] in their order, and the call that writes
    the response. *)
Definition handleNormalResponse (header : list (string * list string))
    (resp : Response) (readFails : bool)
    : list (string * string) * Written :=
  (flat_map (λ '(key, values), (λ value, (key, value)) <$> values) header,
   if readFails
   then WroteJSON StatusInternalServerError "failed to read response"
   else WroteData (StatusCode resp) (ContentType resp) (Body resp)).

End handlers.

(** ** Package middleware *)

Module middleware.

Definition ContextKeyAPIKeyName : string := "api_key_name".

(** [strings.HasPrefix(s, prefix)] *)
Definition HasPrefix (s prefix : string) : bool := String.prefix prefix s.

(** [strings.TrimPrefix(s, prefix)] *)
Fixpoint stripPrefix (prefix s : string) : option string :=
  match prefix, s with
  | EmptyString, _ => Some s
  | String a prefix', String b s' =>
      if Ascii.eqb a b then stripPrefix prefix' s' else None
  | String _ _, EmptyString => None
  end.

Definition TrimPrefix (s prefix : string) : string :=
  match stripPrefix prefix s with
  | Some rest => rest
  | None => s
  end.

(** [extractAPIKey]: [GetHeader] is [c.GetHeader] of the request, the
    empty string for a header that is absent. *)
Definition extractAPIKey (GetHeader : string → string) : string :=
  let auth := GetHeader "Authorization" in
  if negb (String.eqb auth EmptyString) && HasPrefix auth "Bearer " then
    TrimPrefix auth "Bearer "
  else if negb (String.eqb (GetHeader "api-key") EmptyString) then
    GetHeader "api-key"
  else if negb (String.eqb (GetHeader "x-api-key") EmptyString) then
    GetHeader "x-api-key"
  else EmptyString.

(** [maskAPIKey]: [len(key)] counts bytes and [key[:8]] cuts bytes,
    as [length] and [substring] do on strings of 8-bit characters. *)
Definition maskAPIKey (key : string) : string :=
  if (String.length key <=? 8)%nat then "***"
  else String.substring 0 8 key +:+ "***".

Definition StatusUnauthorized : Z := 401.

(** How [Auth] ends: with [c.Next()], after [c.Set] of the key name
    when there is one, or with [c.AbortWithStatusJSON]; a rejection of
    an invalid key also writes the masked key to the log. *)
Inductive AuthOutcome :=
| Next (keyName : option string)
| Abort (status : Z) (message type code : string) (masked_key : option string).

Definition Auth (auth : config.AuthConfig) (GetHeader : string → string)
    : AuthOutcome :=
  if negb (config.IsAuthEnabled auth) then Next None
  else
    let apiKey := extractAPIKey GetHeader in
    if String.eqb apiKey EmptyString then
      Abort StatusUnauthorized
        "Missing API key. Please include your API key in the Authorization header using Bearer scheme, or in the api-key/x-api-key header."
        "invalid_request_error" "missing_api_key" None
    else
      let '(keyName, valid) := config.ValidateAPIKey auth apiKey in
      if negb valid then
        Abort StatusUnauthorized "Invalid API key provided."
          "invalid_request_error" "invalid_api_key" (Some (maskAPIKey apiKey))
      else Next (Some keyName).

(** [Recovery]: a panic of the handlers behind it becomes a 500. *)
Definition Recovery (next : handlers.Outcome) : handlers.Outcome :=
  match next with
  | handlers.Panicked => handlers.JSON 500 "internal server error" None
  | out => out
  end.

End middleware.

(** ** Package main: the routes under /v1

    Every route of the group runs [Recovery], then [Auth], then its
    handler; the logging middleware only observes. *)

Module routes.

Import loadbalancer handlers.

Definition v1 (auth : config.AuthConfig) (GetHeader : string → string)
    (handler : LoadBalancer → LoadBalancer * list AttemptLog * Outcome)
    (lb : LoadBalancer)
    : LoadBalancer * list AttemptLog * (middleware.AuthOutcome * option Outcome) :=
  match middleware.Auth auth GetHeader with
  | middleware.Next keyName =>
      let '(lb', log, out) := handler lb in
      (lb', log, (middleware.Next keyName, Some (middleware.Recovery out)))
  | rejected => (lb, [], (rejected, None))
  end.

End routes.

(** * Vocabulary of the statements *)

(** The place probed by the [k]-th iteration of the loop of [GetNext]
    when the cursor stood at [cur] on entry: the cursor has been
    advanced [k] times, with the wrap-around of [uint64], and is then
    reduced modulo the pool size. *)
Definition probe (cur : Z) (n k : nat) : nat :=
  Z.to_nat (wrap_uint64 (cur + Z.of_nat k) mod Z.of_nat n).

(** The slice [GetAllBackends] builds for a pool: place [i] holds the
    backend at place [(start + i) mod n] of the pool, [start] being the
    cursor modulo the pool size [n]. *)
Definition failoverSequence (model : string) (balancer : loadbalancer.ModelBalancer)
    : list loadbalancer.BackendRef :=
  let n := length (loadbalancer.backends balancer) in
  let start := Z.to_nat (loadbalancer.current balancer mod Z.of_nat n) in
  (λ i, loadbalancer.mkRef model ((start + i) `mod` n)%nat) <$> seq 0 n.

(** ** Operations on a running load balancer

    The calls that reach the load balancer once the server runs: the
    two selections, the two health updates and the tick of the recovery
    goroutine. *)

Inductive Op :=
| OpGetNext (model : string)
| OpGetAllBackends (model : string)
| OpMarkUnhealthy (model : string) (backend : loadbalancer.BackendRef) (now : time.Time)
| OpMarkHealthy (model : string) (backend : loadbalancer.BackendRef) (now : time.Time)
| OpHealthCheckTick (clock : string → nat → time.Time).

Definition run_op (op : Op) (lb : loadbalancer.LoadBalancer)
    : loadbalancer.LoadBalancer :=
  match op with
  | OpGetNext model => (loadbalancer.GetNext model lb).2
  | OpGetAllBackends model => (loadbalancer.GetAllBackends model lb).2
  | OpMarkUnhealthy model backend now => loadbalancer.MarkUnhealthy model backend now lb
  | OpMarkHealthy model backend now => loadbalancer.MarkHealthy model backend now lb
  | OpHealthCheckTick clock => loadbalancer.healthCheckTick clock lb
  end.

(** ** Sample configurations

    Concrete pools on which the statements below are evaluated. *)

Module sample.

Import loadbalancer.

Definition backendA : config.Backend :=
  config.mkBackend "https://a.example/" "key-a" "gpt-4" "2025-04-01-preview".
Definition backendB : config.Backend :=
  config.mkBackend "https://b.example" "key-b" "gpt-4" "".
Definition backendC : config.Backend :=
  config.mkBackend "https://c.example" "key-c" "gpt-4" "".

Definition up (b : config.Backend) : BackendStatus :=
  {| Backend := b; Healthy := true; LastChecked := zeroTime; FailCount := 0 |}.

(** A backend that failed once, at instant [t]. *)
Definition down (b : config.Backend) (t : time.Time) : BackendStatus :=
  {| Backend := b; Healthy := false; LastChecked := t; FailCount := 1 |}.

(** Two backends, both down, the cursor at 1. *)
Definition poolDown : ModelBalancer :=
  {| backends := [down backendA 5; down backendB 6]; current := 1 |}.
Definition lbDown : LoadBalancer := {[ "gpt-4" := poolDown ]}.

(** Three backends, only the last one up, the cursor at 0. *)
Definition poolMixed : ModelBalancer :=
  {| backends := [down backendA 5; down backendB 6; up backendC];
     current := 0 |}.
Definition lbMixed : LoadBalancer := {[ "gpt-4" := poolMixed ]}.

(** Two healthy backends, as [Init] leaves them. *)
Definition cfgTwo : config.Config :=
  config.mkConfig
    {[ "gpt-4" := config.mkModelConfig [backendA; backendB] ]}
    (config.mkRetryConfig 3 30000000000).
Definition lbTwo : LoadBalancer := Init cfgTwo ∅.
Definition poolTwo : ModelBalancer :=
  {| backends := [up backendA; up backendB]; current := 0 |}.

(** A model configured without any backend. *)
Definition cfgEmpty : config.Config :=
  config.mkConfig {[ "gpt-4" := config.mkModelConfig [] ]}
                  (config.mkRetryConfig 3 30000000000).

(** A retry policy that allows no attempt. *)
Definition cfgNoAttempt : config.Config :=
  config.mkConfig
    {[ "gpt-4" := config.mkModelConfig [backendA; backendB] ]}
    (config.mkRetryConfig 0 30000000000).

Import handlers.

Definition ok : Response :=
  {| StatusCode := 200; ContentType := "application/json"; Body := [] |}.
Definition internalError : Response :=
  {| StatusCode := 500; ContentType := "application/json"; Body := [] |}.
Definition refused : error :=
  {| Error := "dial tcp: connection refused"; isCanceled := false |}.
Definition canceled : error :=
  {| Error := "context canceled"; isCanceled := true |}.

(** The first backend answers 500, the second one 200. *)
Definition envFailover (i : nat) : Attempt :=
  match i with
  | O => mkAttempt false None (inr internalError) 100
  | _ => mkAttempt false None (inr ok) 200
  end.

(** The first backend answers 500, the connection to the second one
    is refused. *)
Definition envAllFail (i : nat) : Attempt :=
  match i with
  | O => mkAttempt false None (inr internalError) 100
  | _ => mkAttempt false None (inl refused) 200
  end.

(** The caller goes away while the first outbound call is in flight:
    [client.Do] returns the cancellation of the context as its error,
    and the context is done at the next poll. *)
Definition envCallerCancels (i : nat) : Attempt :=
  match i with
  | O => mkAttempt false None (inl canceled) 100
  | _ => mkAttempt true None (inl canceled) 200
  end.

(** A clock that reads 31 seconds after instant 5 for every backend. *)
Definition clockLate (model : string) (i : nat) : time.Time :=
  5 + 31 * time.Second.

End sample.

(** ** Reading an attempt log *)

Module trace.

Import loadbalancer handlers.

(** The health update recorded in one log entry, applied to the
    store. *)
Definition apply_mark (model : string) (lb : LoadBalancer) (l : AttemptLog)
    : LoadBalancer :=
  match at_mark l with
  | MarkedUnhealthy now => MarkUnhealthy model (at_backend l) now lb
  | MarkedHealthy now => MarkHealthy model (at_backend l) now lb
  | NotMarked => lb
  end.

Definition replay (model : string) (log : list AttemptLog) (lb : LoadBalancer)
    : LoadBalancer :=
  foldl (apply_mark model) lb log.

(** The error an attempt leaves in [lastErr]; [None] for an attempt
    that was answered. *)
Definition failure (r : Result) : option error :=
  match r with
  | RequestNotBuilt err | CallFailed err => Some err
  | ServerError resp => Some (statusError (StatusCode resp))
  | Answered _ => None
  end.

Definition failed (l : AttemptLog) : Prop := is_Some (failure (at_result l)).

(** The value of [lastErr] after the attempts of [log], when it was
    [lastErr] before them. *)
Definition lastErr_after (lastErr : option error) (log : list AttemptLog)
    : option error :=
  match last log with
  | Some l => failure (at_result l)
  | None => lastErr
  end.

(** The status a log entry leaves behind in the backend it names. *)
Definition mark_status (m : Mark) (s : BackendStatus) : BackendStatus :=
  match m with
  | MarkedUnhealthy now => markUnhealthy now s
  | MarkedHealthy now => markHealthy now s
  | NotMarked => s
  end.

(** The entry [l] is what the loop body writes when the outside world
    behaves as [a] during the iteration. *)
Definition records (a : Attempt) (l : AttemptLog) : Prop :=
  ctxDone a = false ∧
  match newRequestErr a with
  | Some err => at_result l = RequestNotBuilt err ∧ at_mark l = NotMarked
  | None =>
      match doResult a with
      | inl err =>
          at_result l = CallFailed err ∧ at_mark l = MarkedUnhealthy (now a)
      | inr resp =>
          if 500 <=? StatusCode resp
          then at_result l = ServerError resp ∧ at_mark l = MarkedUnhealthy (now a)
          else at_result l = Answered resp ∧ at_mark l = MarkedHealthy (now a)
      end
  end.

End trace.

(** The rename applies to a payload that has the legacy field and lacks
    its replacement. *)
Definition needsRename {Value : Type} (data : gmap string Value) : Prop :=
  is_Some (data !! "max_tokens") ∧ data !! "max_completion_tokens" = None.

#[global] Instance needsRename_dec {Value : Type} (data : gmap string Value) :
  Decision (needsRename data).
Proof. unfold needsRename. apply _. Defined.

(** ** A codec for the statements about the transformer

    The transformer is stated over any pair of functions standing for
    [json.Unmarshal] and [json.Marshal].  To run it, this module gives
    one such pair: objects whose values are strings, written entry by
    entry in a self-delimiting form (every character is preceded by the
    byte 1, every string is closed by the byte 0). *)

Module wire.

Import handlers.

Fixpoint enc_str (s : string) : bytes :=
  match s with
  | EmptyString => [Byte.x00]
  | String c rest => Byte.x01 :: Ascii.byte_of_ascii c :: enc_str rest
  end.

Fixpoint dec_str (bs : bytes) : option (string * bytes) :=
  match bs with
  | Byte.x00 :: rest => Some (EmptyString, rest)
  | Byte.x01 :: c :: rest =>
      match dec_str rest with
      | Some (s, rest') => Some (String (Ascii.ascii_of_byte c) s, rest')
      | None => None
      end
  | _ => None
  end.

Fixpoint enc_entries (l : list (string * string)) : bytes :=
  match l with
  | [] => []
  | (k, v) :: rest => enc_str k ++ enc_str v ++ enc_entries rest
  end.

Fixpoint dec_entries (fuel : nat) (bs : bytes) : option (list (string * string)) :=
  match bs, fuel with
  | [], _ => Some []
  | _, O => None
  | _, S fuel' =>
      match dec_str bs with
      | Some (k, bs1) =>
          match dec_str bs1 with
          | Some (v, bs2) =>
              match dec_entries fuel' bs2 with
              | Some rest => Some ((k, v) :: rest)
              | None => None
              end
          | None => None
          end
      | None => None
      end
  end.

Definition Marshal (data : gmap string string) : option bytes :=
  Some (enc_entries (map_to_list data)).

Definition Unmarshal (body : bytes) : option (gmap string string) :=
  match dec_entries (length body) body with
  | Some l => Some (list_to_map l)
  | None => None
  end.

(** Sample payloads. *)
Definition legacy : gmap string string :=
  {[ "model" := "gpt-4"; "max_tokens" := "256"; "enable_thinking" := "true" ]}.
Definition both : gmap string string :=
  {[ "model" := "gpt-4"; "max_tokens" := "256";
     "max_completion_tokens" := "512" ]}.

Definition legacyBody : bytes := enc_entries (map_to_list legacy).
Definition bothBody : bytes := enc_entries (map_to_list both).

End wire.

(** ** Further vocabulary *)

(** [k] calls of [GetNext] in a row for one model: the results in order
    and the load balancer they leave. *)
Fixpoint GetNext_times (model : string) (k : nat) (lb : loadbalancer.LoadBalancer)
    : list (option loadbalancer.BackendRef) * loadbalancer.LoadBalancer :=
  match k with
  | O => ([], lb)
  | S k' =>
      let '(r, lb1) := loadbalancer.GetNext model lb in
      let '(rs, lb2) := GetNext_times model k' lb1 in
      (r :: rs, lb2)
  end.

(** What the configuration fixed in a load balancer: for every model
    the descriptors of its backends, in the order of the pool. *)
Definition shape (lb : loadbalancer.LoadBalancer) : gmap string (list config.Backend) :=
  (λ b, loadbalancer.Backend <$> loadbalancer.backends b) <$> lb.

(** What the outside world does in an iteration that fails, and in one
    that is answered with [resp]. *)
Definition fails (a : handlers.Attempt) : Prop :=
  handlers.ctxDone a = false ∧
  (is_Some (handlers.newRequestErr a) ∨
   (∃ err, handlers.doResult a = inl err) ∨
   (∃ resp, handlers.doResult a = inr resp ∧ 500 ≤ handlers.StatusCode resp)).


(** The JSON error that a request is answered with by the handler or
    by the routine it hands the response to, if it is answered with
    one: [out] is how the handler ended, [header] and [readFails] are
    what [handleNormalResponse] finds when it is called. *)
Definition jsonError (out : handlers.Outcome)
    (header : list (string * list string)) (readFails : bool)
    : option (Z * string) :=
  match out with
  | handlers.JSON code err _ => Some (code, err)
  | handlers.NormalResponse resp =>
      match (handlers.handleNormalResponse header resp readFails).2 with
      | handlers.WroteJSON code err => Some (code, err)
      | handlers.WroteData _ _ _ => None
      end
  | _ => None
  end.

(** Samples for the statements that follow. *)
Module sample_more.

Import loadbalancer handlers.

(** Three healthy backends, the cursor at 0. *)
Definition poolThree : ModelBalancer :=
  {| backends := [sample.up sample.backendA; sample.up sample.backendB;
                  sample.up sample.backendC];
     current := 0 |}.
Definition lbThree : LoadBalancer := {[ "gpt-4" := poolThree ]}.

Definition keys : config.AuthConfig :=
  config.mkAuthConfig true
    [config.mkAPIKeyConfig "team-a" "sk-alpha-0123456789";
     config.mkAPIKeyConfig "team-b" "sk-beta-0123456789"].

(** A request that carries the second key as a bearer token. *)
Definition bearer (header : string) : string :=
  if String.eqb header "Authorization" then "Bearer sk-beta-0123456789"
  else EmptyString.

(** A request without any of the three headers. *)
Definition anonymous (header : string) : string := EmptyString.

(** A body stream of two chunks and a clean end. *)
Definition twoChunks : list ReadResult :=
  [mkRead [Byte.x64; Byte.x61] None; mkRead [Byte.x74; Byte.x61] None;
   mkRead [] (Some EOF)].

Definition never (i : nat) : bool := false.
Definition always (i : nat) : bool := true.

(** What the outside world does when the first call fails and the
    caller is gone at the next poll. *)
Definition envFailThenGone (i : nat) : Attempt :=
  match i with
  | O => mkAttempt false None (inl sample.refused) 100
  | _ => mkAttempt true None (inl sample.refused) 200
  end.

(** The model field of a wire body, for [UnmarshalModel]. *)
Definition wireModel (body : bytes) : option string :=
  match wire.Unmarshal body with
  | Some data => Some (default EmptyString (data !! "model"))
  | None => None
  end.

End sample_more.

(** * Properties *)

Import loadbalancer.

(** ** The store of backend statuses *)

Section store_facts.

Implicit Types (lb : LoadBalancer) (p q : BackendRef) (s : BackendStatus).

Lemma lookup_store_is_Some lb p f m :
  is_Some (store p f lb !! m) ↔ is_Some (lb !! m).
Proof.
  unfold store. destruct (decide (ref_model p = m)) as [->|Hne].
  - rewrite lookup_alter_eq. by rewrite fmap_is_Some.
  - by rewrite lookup_alter_ne.
Qed.

Lemma deref_store_ne lb p q f :
  p ≠ q → deref (store p f lb) q = deref lb q.
Proof.
  intros Hne. unfold deref, store.
  destruct (decide (ref_model p = ref_model q)) as [Heq|Hm].
  - rewrite <- Heq, lookup_alter_eq.
    destruct (lb !! ref_model p) as [b|]; simpl; [|done].
    rewrite list_lookup_alter_ne; [done|].
    intros Hi. apply Hne. destruct p, q; simpl in *; congruence.
  - by rewrite lookup_alter_ne.
Qed.

Lemma MarkUnhealthy_is_Some lb model p now m :
  is_Some (MarkUnhealthy model p now lb !! m) ↔ is_Some (lb !! m).
Proof.
  unfold MarkUnhealthy. destruct (lb !! model); [|done].
  apply lookup_store_is_Some.
Qed.

Lemma MarkHealthy_is_Some lb model p now m :
  is_Some (MarkHealthy model p now lb !! m) ↔ is_Some (lb !! m).
Proof.
  unfold MarkHealthy. destruct (lb !! model); [|done].
  apply lookup_store_is_Some.
Qed.

End store_facts.

(** ** Initialisation *)

Lemma Init_lookup (cfg : config.Config) (lb : LoadBalancer) (model : string) :
  Init cfg lb !! model =
    match config.Models cfg !! model with
    | Some modelCfg => Some (newBalancer modelCfg)
    | None => lb !! model
    end.
Proof.
  unfold Init. revert model.
  apply (map_fold_weak_ind (λ (r : LoadBalancer) (m : gmap string config.ModelConfig),
    ∀ model, r !! model = match m !! model with
                          | Some modelCfg => Some (newBalancer modelCfg)
                          | None => lb !! model
                          end)).
  - intros model. by rewrite lookup_empty.
  - intros i x m r Hi IH model.
    destruct (decide (i = model)) as [->|Hne].
    + by rewrite !lookup_insert_eq.
    + rewrite !lookup_insert_ne by done. apply IH.
Qed.

Lemma HasModel_true (lb : LoadBalancer) (model : string) :
  HasModel model lb = true ↔ is_Some (lb !! model).
Proof. unfold HasModel. by rewrite bool_decide_eq_true. Qed.

(** ** Single selection *)

Lemma wrap_uint64_bump (c k : Z) :
  wrap_uint64 (wrap_uint64 (c + 1) + k) = wrap_uint64 (c + (k + 1)).
Proof.
  unfold wrap_uint64. rewrite Zplus_mod_idemp_l. f_equal. lia.
Qed.

Lemma probe_bump (c : Z) (n k : nat) :
  probe (wrap_uint64 (c + 1)) n k = probe c n (S k).
Proof.
  unfold probe. rewrite wrap_uint64_bump. do 3 f_equal. lia.
Qed.

Lemma probe_lt (c : Z) (n k : nat) : n ≠ 0%nat → (probe c n k < n)%nat.
Proof.
  intros Hn. unfold probe.
  pose proof (Z.mod_pos_bound (wrap_uint64 (c + Z.of_nat k)) (Z.of_nat n)).
  lia.
Qed.

Lemma GetNext_loop_spec (fuel n : nat) (b : ModelBalancer) found b' :
  length (backends b) = n → n ≠ 0%nat →
  GetNext_loop fuel n b = (found, b') →
  backends b' = backends b ∧
  match found with
  | Some idx =>
      ∃ k, (1 ≤ k ≤ fuel)%nat ∧ idx = probe (current b) n k ∧
        Healthy <$> backends b !! idx = Some true ∧
        (∀ j, (1 ≤ j < k)%nat →
           Healthy <$> backends b !! probe (current b) n j = Some false) ∧
        current b' = wrap_uint64 (current b + Z.of_nat k)
  | None =>
      (∀ j, (1 ≤ j ≤ fuel)%nat →
         Healthy <$> backends b !! probe (current b) n j = Some false) ∧
      (fuel ≠ 0%nat → current b' = wrap_uint64 (current b + Z.of_nat fuel)) ∧
      (fuel = 0%nat → current b' = current b)
  end.
Proof.
  intros Hlen Hn. revert b found b' Hlen.
  induction fuel as [|fuel IH]; intros b found b' Hlen; simpl.
  { intros [= <- <-]. split; [done|]. split_and!; [intros; lia|done|done]. }
  assert (Hp1 : Z.to_nat (wrap_uint64 (current b + 1) `mod` Z.of_nat n)
                = probe (current b) n 1) by done.
  rewrite Hp1.
  pose proof (probe_lt (current b) n 1 Hn) as Hlt.
  destruct (lookup_lt_is_Some_2 (backends b) (probe (current b) n 1)) as [s Hs];
    [lia|].
  rewrite Hs. destruct (Healthy s) eqn:Hh.
  - intros [= <- <-]. split; [done|]. exists 1%nat.
    split_and!; [lia|lia|done|by rewrite Hs; simpl; rewrite Hh|intros; lia|done].
  - intros Hloop. apply IH in Hloop; [|done].
    destruct Hloop as [Hbk Hrest]. simpl in Hbk, Hrest. split; [done|].
    destruct found as [idx|].
    + destruct Hrest as (k & Hk & -> & Hhk & Hbefore & Hcur).
      exists (S k). rewrite <- probe_bump.
      split_and!; [lia|lia|done|done| |].
      * intros j Hj. destruct (decide (j = 1%nat)) as [->|Hj1].
        { by rewrite Hs; simpl; rewrite Hh. }
        destruct j as [|j]; [lia|]. rewrite <- probe_bump. apply Hbefore. lia.
      * rewrite Hcur, wrap_uint64_bump. f_equal. lia.
    + destruct Hrest as (Hall & Hcur & Hcur0). split_and!.
      * intros j Hj. destruct (decide (j = 1%nat)) as [->|Hj1].
        { by rewrite Hs; simpl; rewrite Hh. }
        destruct j as [|j]; [lia|]. rewrite <- probe_bump. apply Hall. lia.
      * intros _. destruct fuel as [|fuel'].
        { rewrite Hcur0 by done. done. }
        rewrite Hcur by done. rewrite wrap_uint64_bump. f_equal. lia.
      * done.
Qed.


Lemma probe_covers (c : Z) (n i : nat) :
  0 ≤ c → c + Z.of_nat n < 2 ^ 64 → (i < n)%nat →
  ∃ j, (1 ≤ j ≤ n)%nat ∧ probe c n j = i.
Proof.
  intros Hc Hwrap Hi.
  set (d := (Z.of_nat i - c) mod Z.of_nat n).
  assert (Hd : 0 ≤ d < Z.of_nat n) by (apply Z.mod_pos_bound; lia).
  assert (Hmod : (c + d) mod Z.of_nat n = Z.of_nat i).
  { unfold d. rewrite Zplus_mod_idemp_r.
    replace (c + (Z.of_nat i - c)) with (Z.of_nat i) by lia.
    apply Z.mod_small. lia. }
  clearbody d.
  exists (if decide (d = 0) then n else Z.to_nat d).
  split; [case_decide; lia|].
  unfold probe, wrap_uint64. case_decide as Hd0.
  - rewrite (Z.mod_small (c + Z.of_nat n) (2 ^ 64)) by lia.
    subst d. rewrite Z.add_0_r in Hmod.
    replace (c + Z.of_nat n) with (c + 1 * Z.of_nat n) by lia.
    rewrite Z_mod_plus_full. lia.
  - rewrite Z2Nat.id by lia.
    rewrite (Z.mod_small (c + d) (2 ^ 64)) by lia. lia.
Qed.

(** C1 (amended).  For a configured model with a non-empty pool of [n]
    backends, [GetNext] makes [k] probes, [1 ≤ k ≤ n], and advances the
    cursor once for every probe, so by [k] in all (modulo [2^64]).  The
    first [k - 1] backends probed are unhealthy.  Either the [k]-th one
    is healthy and is the result, or all [n] probes met an unhealthy
    backend and the result is the first backend of the pool (place 0).
    In particular a pool without a healthy backend yields place 0 after
    [n] advances; and as long as the cursor does not wrap around, the
    [n] probes visit the whole pool, so a healthy backend is returned
    whenever there is one. *)
Theorem GetNext_probes_until_healthy
    (lb : LoadBalancer) (model : string) (balancer : ModelBalancer) :
  lb !! model = Some balancer →
  backends balancer ≠ [] →
  let n := length (backends balancer) in
  let c := current balancer in
  ∃ (k idx : nat),
    (1 ≤ k ≤ n)%nat ∧
    GetNext model lb =
      (Some (mkRef model idx),
       <[model := {| backends := backends balancer;
                     current := wrap_uint64 (c + Z.of_nat k) |}]> lb) ∧
    (∀ j, (1 ≤ j < k)%nat →
       Healthy <$> backends balancer !! probe c n j = Some false) ∧
    ((idx = probe c n k ∧
      Healthy <$> backends balancer !! idx = Some true) ∨
     (k = n ∧ idx = 0%nat ∧
      Healthy <$> backends balancer !! probe c n n = Some false)) ∧
    ((∀ s, s ∈ backends balancer → Healthy s = false) →
       k = n ∧ idx = 0%nat) ∧
    (0 ≤ c → c + Z.of_nat n < 2 ^ 64 →
     (∃ s, s ∈ backends balancer ∧ Healthy s = true) →
       Healthy <$> backends balancer !! idx = Some true).
Proof.
  intros Hlb Hne n c.
  assert (Hn : n ≠ 0%nat).
  { subst n. destruct (backends balancer); [done|simpl; lia]. }
  unfold GetNext. rewrite Hlb. fold n. rewrite decide_False by done.
  destruct (GetNext_loop n n balancer) as [found b'] eqn:Hloop.
  apply GetNext_loop_spec in Hloop; [|done..].
  destruct Hloop as [Hbk Hrest]. fold c in Hrest.
  assert (Hb' : ∀ z, current b' = z →
            b' = {| backends := backends balancer; current := z |}).
  { intros z <-. destruct b'; simpl in *. by subst. }
  destruct found as [idx|].
  - destruct Hrest as (k & Hk & -> & Hh & Hbefore & Hcur).
    exists k, (probe c n k). rewrite (Hb' _ Hcur).
    split_and!; [lia|lia|done|done|by left| |done].
    intros Hall. exfalso.
    destruct (backends balancer !! probe c n k) as [s|] eqn:Hs; [|done].
    simpl in Hh. rewrite (Hall s) in Hh; [done|].
    by eapply list_elem_of_lookup_2.
  - destruct Hrest as (Hall & Hcur & _).
    exists n, 0%nat. rewrite (Hb' _ (Hcur Hn)).
    split_and!; [lia|lia|done| |right|done|].
    + intros j Hj. apply Hall. lia.
    + split_and!; [done..|]. apply Hall. lia.
    + intros Hc Hwrap (s & Hin & Hs). exfalso.
      apply list_elem_of_lookup in Hin as [i Hi].
      destruct (probe_covers c n i) as (j & Hj & Hpj);
        [done|done|by eapply lookup_lt_Some|].
      specialize (Hall j Hj). rewrite Hpj, Hi in Hall. simpl in Hall.
      congruence.
Qed.

Lemma GetNext_probes_until_healthy_witness :
  ∃ (k idx : nat),
    (1 ≤ k ≤ 3)%nat ∧
    GetNext "gpt-4" sample.lbMixed =
      (Some (mkRef "gpt-4" idx),
       <["gpt-4" := {| backends := backends sample.poolMixed;
                       current := wrap_uint64 (0 + Z.of_nat k) |}]> sample.lbMixed).
Proof.
  destruct (GetNext_probes_until_healthy sample.lbMixed "gpt-4" sample.poolMixed)
    as (k & idx & Hk & Hres & _); [reflexivity|discriminate|].
  exists k, idx. split; [exact Hk|exact Hres].
Defined.

(** C1 as stated fails on a pool of two unhealthy backends with the
    cursor at 1: the two probes advance the cursor to 3, not to 2, and
    the result is the backend at place 0, while the cursor stood at
    place [1 mod 2 = 1] before the call. *)
Lemma GetNext_single_advance_counterexample :
  ∃ lb' pool',
    GetNext "gpt-4" sample.lbDown = (Some (mkRef "gpt-4" 0), lb') ∧
    lb' !! "gpt-4" = Some pool' ∧
    current pool' = 3 ∧
    current pool' ≠ wrap_uint64 (current sample.poolDown + 1) ∧
    mkRef "gpt-4" 0 ≠
      mkRef "gpt-4" (Z.to_nat (current sample.poolDown mod 2)).
Proof.
  eexists _, _. split_and!; [vm_compute; reflexivity|vm_compute; reflexivity|..];
    vm_compute; congruence.
Qed.

(** ** The failover sequence *)

Lemma rotate_mod (s i n : nat) :
  (s < n)%nat → (i < n)%nat →
  ((s + i) `mod` n)%nat = if decide (s + i < n)%nat then (s + i)%nat else (s + i - n)%nat.
Proof.
  intros Hs Hi. case_decide as Hlt.
  - by apply Nat.mod_small.
  - symmetry. apply (Nat.mod_unique _ _ 1); lia.
Qed.

Lemma rotate_inj (s i j n : nat) :
  (s < n)%nat → (i < n)%nat → (j < n)%nat →
  ((s + i) `mod` n)%nat = ((s + j) `mod` n)%nat → i = j.
Proof.
  intros Hs Hi Hj. rewrite !rotate_mod by done. repeat case_decide; lia.
Qed.

Lemma rotate_surj (s j n : nat) :
  (s < n)%nat → (j < n)%nat →
  ∃ i, (i < n)%nat ∧ ((s + i) `mod` n)%nat = j.
Proof.
  intros Hs Hj.
  exists (if decide (s ≤ j)%nat then (j - s)%nat else (j + n - s)%nat).
  split; [case_decide; lia|].
  rewrite rotate_mod by (try case_decide; lia). repeat case_decide; lia.
Qed.

Lemma start_lt (c : Z) (n : nat) :
  n ≠ 0%nat → (Z.to_nat (c mod Z.of_nat n) < n)%nat.
Proof.
  intros Hn. pose proof (Z.mod_pos_bound c (Z.of_nat n)). lia.
Qed.

(** The slice built by [GetAllBackends] for a pool of [n] backends with
    the cursor at [c]. *)
Lemma GetAllBackends_Some (lb : LoadBalancer) (model : string)
    (balancer : ModelBalancer) :
  lb !! model = Some balancer →
  backends balancer ≠ [] →
  let n := length (backends balancer) in
  GetAllBackends model lb = (Some (failoverSequence model balancer), lb).
Proof.
  intros Hlb Hne n. unfold GetAllBackends, failoverSequence. rewrite Hlb. fold n.
  rewrite decide_False; [done|].
  subst n. destruct (backends balancer); [done|simpl; lia].
Qed.

Lemma rotation_NoDup (model : string) (s n : nat) :
  (s < n)%nat →
  NoDup ((λ i, mkRef model ((s + i) `mod` n)%nat) <$> seq 0 n).
Proof.
  intros Hs. apply NoDup_fmap_2_strong; [|apply NoDup_seq].
  intros i j Hi Hj [= Heq].
  apply elem_of_seq in Hi, Hj. eapply rotate_inj; [exact Hs|lia|lia|exact Heq].
Qed.

(** The failover sequence of a non-empty pool of [n] backends: its
    length, its entries, and the fact that it lists every place of the
    pool once. *)
Lemma failoverSequence_facts
    (lb : LoadBalancer) (model : string) (balancer : ModelBalancer) :
  lb !! model = Some balancer →
  backends balancer ≠ [] →
  let n := length (backends balancer) in
  let start := Z.to_nat (current balancer mod Z.of_nat n) in
  let result := failoverSequence model balancer in
  length result = n ∧
  (∀ i, (i < n)%nat →
     result !! i = Some (mkRef model ((start + i) `mod` n)%nat) ∧
     deref lb (mkRef model ((start + i) `mod` n)%nat) =
       backends balancer !! ((start + i) `mod` n)%nat) ∧
  NoDup result ∧
  (∀ j s, backends balancer !! j = Some s →
     mkRef model j ∈ result ∧ deref lb (mkRef model j) = Some s).
Proof.
  intros Hlb Hne n start result.
  assert (Hn : n ≠ 0%nat).
  { subst n. destruct (backends balancer); [done|simpl; lia]. }
  pose proof (start_lt (current balancer) n Hn) as Hstart. fold start in Hstart.
  subst result. unfold failoverSequence. fold n start.
  assert (Hderef : ∀ j, deref lb (mkRef model j) = backends balancer !! j).
  { intros j. unfold deref. simpl. by rewrite Hlb. }
  split_and!.
  - by rewrite length_fmap, length_seq.
  - intros i Hi. split; [|apply Hderef].
    rewrite list_lookup_fmap, lookup_seq_lt by done. done.
  - by apply rotation_NoDup.
  - intros j s Hj. split; [|by rewrite Hderef].
    destruct (rotate_surj start j n) as (i & Hi & Hij);
      [done|by eapply lookup_lt_Some|].
    apply list_elem_of_fmap. exists i. split; [by rewrite Hij|].
    apply elem_of_seq. lia.
Qed.

(** C5.  For a configured model with a non-empty pool of [n] backends,
    [GetAllBackends] leaves the load balancer as it was, cursor
    included, and returns a slice of length [n] whose [i]-th entry is
    the backend at place [(start + i) mod n] of the pool, where [start]
    is the cursor modulo [n].  Every entry points to the status stored
    at that place whatever its health flag, no backend appears twice,
    and every place of the pool appears. *)
Theorem GetAllBackends_full_rotation
    (lb : LoadBalancer) (model : string) (balancer : ModelBalancer) :
  lb !! model = Some balancer →
  backends balancer ≠ [] →
  let n := length (backends balancer) in
  let start := Z.to_nat (current balancer mod Z.of_nat n) in
  ∃ result : list BackendRef,
    GetAllBackends model lb = (Some result, lb) ∧
    length result = n ∧
    (∀ i, (i < n)%nat →
       result !! i = Some (mkRef model ((start + i) `mod` n)%nat) ∧
       deref lb (mkRef model ((start + i) `mod` n)%nat) =
         backends balancer !! ((start + i) `mod` n)%nat) ∧
    NoDup result ∧
    (∀ j s, backends balancer !! j = Some s →
       mkRef model j ∈ result ∧ deref lb (mkRef model j) = Some s).
Proof.
  intros Hlb Hne n start.
  exists (failoverSequence model balancer).
  split; [by apply GetAllBackends_Some|].
  by apply failoverSequence_facts.
Qed.

Lemma GetAllBackends_full_rotation_witness :
  ∃ result : list BackendRef,
    GetAllBackends "gpt-4" sample.lbDown = (Some result, sample.lbDown) ∧
    length result = 2%nat ∧ NoDup result.
Proof.
  destruct (GetAllBackends_full_rotation sample.lbDown "gpt-4" sample.poolDown)
    as (result & Hres & Hlen & _ & Hnd & _); [reflexivity|discriminate|].
  exists result. split_and!; [exact Hres|exact Hlen|exact Hnd].
Defined.

(** ** The retry loop *)

Import handlers trace.

Section dispatch_facts.

Variable cfg : config.Config.
Variable env : nat → Attempt.
Variable model : string.
Variable body : bytes.
Variable apiType : string.

(** What one pass through the loop body can be. *)
Lemma attempt_cases (bs : list BackendRef) (i : nat) (lb : LoadBalancer) :
  (ctxDone (env i) = true ∧ attempt env model body apiType bs i lb = Return lb None Cancelled) ∨
  (ctxDone (env i) = false ∧ attempt env model body apiType bs i lb = Return lb None Panicked ∧
     (bs !! (i `mod` length bs)%nat = None ∨
      ∃ p, bs !! (i `mod` length bs)%nat = Some p ∧ deref lb p = None)) ∨
  (∃ p s, ctxDone (env i) = false ∧
     bs !! (i `mod` length bs)%nat = Some p ∧ deref lb p = Some s ∧
     let entry := mkLog p (targetURL (Backend s) apiType) body in
     match newRequestErr (env i), doResult (env i) with
     | Some err, _ =>
         attempt env model body apiType bs i lb = Continue lb (Some err) (entry (RequestNotBuilt err) NotMarked)
     | None, inl err =>
         attempt env model body apiType bs i lb =
           Continue (MarkUnhealthy model p (now (env i)) lb) (Some err)
                    (entry (CallFailed err) (MarkedUnhealthy (now (env i))))
     | None, inr resp =>
         (500 ≤ StatusCode resp ∧
          attempt env model body apiType bs i lb =
            Continue (MarkUnhealthy model p (now (env i)) lb)
                     (Some (statusError (StatusCode resp)))
                     (entry (ServerError resp) (MarkedUnhealthy (now (env i))))) ∨
         (StatusCode resp < 500 ∧
          attempt env model body apiType bs i lb =
            Return (MarkHealthy model p (now (env i)) lb)
                   (Some (entry (Answered resp) (MarkedHealthy (now (env i)))))
                   (if Contains (ContentType resp) "text/event-stream"
                    then StreamResponse resp else NormalResponse resp))
     end).
Proof.
  unfold handlers.attempt.
  destruct (ctxDone (env i)); [by left|right].
  destruct (bs !! (i `mod` length bs)%nat) as [p|] eqn:Hp; [|left; eauto].
  destruct (deref lb p) as [s|] eqn:Hs; [|left; eauto 10].
  right. exists p, s. split_and!; [done..|]. simpl.
  destruct (newRequestErr (env i)); [done|].
  destruct (doResult (env i)) as [err|resp]; [done|].
  destruct (500 <=? StatusCode resp) eqn:Hc; [left|right]; (split; [lia|done]).
Qed.

(** The health state after the loop is the state before it with the
    updates of the log applied in order: the loop writes nothing
    else. *)
Lemma retryLoop_replay bs rem i lb lastErr lb' log out :
  retryLoop env model body apiType bs rem i lb lastErr = (lb', log, out) →
  lb' = replay model log lb.
Proof.
  revert i lb lastErr lb' log out.
  induction rem as [|rem IH]; intros i lb lastErr lb' log out; simpl.
  { destruct lastErr; by intros [= <- <- <-]. }
  destruct (attempt_cases bs i lb) as [[_ ->]|[(_ & -> & _)|(p & s & _ & _ & _ & H)]];
    [by intros [= <- <- <-]..|].
  simpl in H.
  destruct (newRequestErr (env i)), (doResult (env i));
    try destruct H as [[_ H]|[_ H]]; rewrite H;
    try (intros [= <- <- <-]; done);
    destruct (retryLoop env model body apiType bs rem (S i) _ _) as [[lb2 logs] out2] eqn:Hrec;
    intros [= <- <- <-]; apply IH in Hrec; by subst.
Qed.


Lemma retryLoop_length bs rem i lb lastErr lb' log out :
  retryLoop env model body apiType bs rem i lb lastErr = (lb', log, out) →
  (length log ≤ rem)%nat.
Proof.
  revert i lb lastErr lb' log out.
  induction rem as [|rem IH]; intros i lb lastErr lb' log out; simpl.
  { destruct lastErr; intros [= <- <- <-]; simpl; lia. }
  destruct (attempt env model body apiType bs i lb) as [lb1 e1 l1|lb1 l1 out1].
  - destruct (retryLoop env model body apiType bs rem (S i) lb1 e1) as [[lb2 logs] out2] eqn:Hrec.
    intros [= <- <- <-]. apply IH in Hrec. simpl. lia.
  - intros [= <- <- <-]. destruct l1; simpl; lia.
Qed.

(** Entry [j] of the log is the record of iteration [i + j]: the
    context was not done, the backend is the one at that place of the
    failover sequence, and result and health update follow what the
    outside world did.  An answered attempt is the last entry, and its
    response is what the handler relays. *)
Lemma retryLoop_entries bs rem i lb lastErr lb' log out j l :
  retryLoop env model body apiType bs rem i lb lastErr = (lb', log, out) →
  log !! j = Some l →
  records (env (i + j)) l ∧
  bs !! ((i + j) `mod` length bs)%nat = Some (at_backend l) ∧
  at_body l = body ∧
  (∃ s, deref (replay model (take j log) lb) (at_backend l) = Some s ∧
        at_url l = targetURL (Backend s) apiType) ∧
  (∀ resp, at_result l = Answered resp →
     length log = S j ∧
     out = if Contains (ContentType resp) "text/event-stream"
           then StreamResponse resp else NormalResponse resp).
Proof.
  revert i lb lastErr lb' log out j.
  induction rem as [|rem IH]; intros i lb lastErr lb' log out j; simpl.
  { destruct lastErr; by intros [= <- <- <-]. }
  assert (Hstep : ∀ lb1 e1 l1,
    attempt env model body apiType bs i lb = Continue lb1 e1 l1 →
    lb1 = apply_mark model lb l1 →
    (records (env i) l1 ∧ bs !! (i `mod` length bs)%nat = Some (at_backend l1) ∧
     at_body l1 = body ∧
     (∃ s, deref lb (at_backend l1) = Some s ∧
           at_url l1 = targetURL (Backend s) apiType) ∧
     ∀ resp, at_result l1 ≠ Answered resp) →
    match attempt env model body apiType bs i lb with
    | Return lb1 log1 out1 => (lb1, option_list log1, out1)
    | Continue lb1 lastErr1 log1 =>
        let '(lb2, logs, out2) := retryLoop env model body apiType bs rem (S i) lb1 lastErr1 in
        (lb2, log1 :: logs, out2)
    end = (lb', log, out) → log !! j = Some l →
    records (env (i + j)) l ∧
    bs !! ((i + j) `mod` length bs)%nat = Some (at_backend l) ∧
    at_body l = body ∧
    (∃ s, deref (replay model (take j log) lb) (at_backend l) = Some s ∧
          at_url l = targetURL (Backend s) apiType) ∧
    (∀ resp, at_result l = Answered resp →
       length log = S j ∧
       out = if Contains (ContentType resp) "text/event-stream"
             then StreamResponse resp else NormalResponse resp)).
  { intros lb1 e1 l1 -> Hlb1 (Hrec1 & Hbs & Hbody & Hurl & Hnot).
    destruct (retryLoop env model body apiType bs rem (S i) lb1 e1) as [[lb2 logs] out2] eqn:Hrec.
    intros [= <- <- <-] Hj. destruct j as [|j].
    - simpl in Hj. injection Hj as <-. rewrite Nat.add_0_r.
      split_and!; [done..|]. intros resp Hresp. by destruct (Hnot resp).
    - simpl in Hj. destruct (IH _ _ _ _ _ _ _ Hrec Hj) as (? & ? & ? & Hu & Hans).
      replace (i + S j)%nat with (S i + j)%nat by lia.
      split_and!; [done..| |].
      + simpl. unfold replay in Hu. by rewrite <- Hlb1.
      + intros resp Hresp. destruct (Hans _ Hresp) as [Hl ->].
        simpl. by rewrite Hl. }
  destruct (attempt_cases bs i lb)
    as [[_ Hat]|[(_ & Hat & _)|(p & s & Hctx & Hp & Hs & H)]].
  { rewrite Hat. by intros [= <- <- <-]. }
  { rewrite Hat. by intros [= <- <- <-]. }
  simpl in H. unfold records in *.
  destruct (newRequestErr (env i)) as [e|] eqn:Hnr;
    [|destruct (doResult (env i)) as [e|resp] eqn:Hdo;
      [|destruct H as [[Hc H]|[Hc H]]]].
  - eapply Hstep; [exact H|done|]. simpl. rewrite ?Hnr. split_and!; eauto.
  - eapply Hstep; [exact H|done|]. simpl. rewrite ?Hnr, ?Hdo. split_and!; eauto.
  - eapply Hstep; [exact H|done|]. simpl. rewrite ?Hnr, ?Hdo.
    destruct (500 <=? StatusCode resp) eqn:Hcmp; [|lia]. split_and!; eauto.
  - rewrite H. intros [= <- <- <-] Hj. destruct j as [|j]; [|done].
    simpl in Hj. injection Hj as <-. rewrite Nat.add_0_r, Hnr, Hdo.
    destruct (500 <=? StatusCode resp) eqn:Hcmp; [lia|]. simpl.
    split_and!; [done..|by eauto|]. by intros ? [= <-].
Qed.


Lemma records_failed_or_answered (a : Attempt) (l : AttemptLog) :
  records a l → failed l ∨ ∃ resp, at_result l = Answered resp.
Proof.
  unfold records, failed. intros [_ H].
  destruct (newRequestErr a); [destruct H as [-> _]; left; by eexists|].
  destruct (doResult a) as [e|resp]; [destruct H as [-> _]; left; by eexists|].
  destruct (500 <=? StatusCode resp); destruct H as [-> _]; [left|right]; by eexists.
Qed.

(** How the loop ends when no attempt was answered: it ran out of
    iterations, or it saw the inbound context done, or it hit a
    dangling backend. *)
Lemma retryLoop_end bs rem i lb lastErr lb' log out :
  retryLoop env model body apiType bs rem i lb lastErr = (lb', log, out) →
  Forall failed log →
  (length log = rem ∧
   out = match lastErr_after lastErr log with
         | Some err => JSON StatusServiceUnavailable "all backends failed"
                            (Some (Error err))
         | None => Panicked
         end) ∨
  ((length log < rem)%nat ∧ ctxDone (env (i + length log)) = true ∧
   out = Cancelled) ∨
  ((length log < rem)%nat ∧ out = Panicked ∧
   (bs !! ((i + length log) `mod` length bs)%nat = None ∨
    ∃ p, bs !! ((i + length log) `mod` length bs)%nat = Some p ∧
         deref lb' p = None)).
Proof.
  revert i lb lastErr lb' log out.
  induction rem as [|rem IH]; intros i lb lastErr lb' log out; simpl.
  { destruct lastErr; intros [= <- <- <-] _; left; done. }
  destruct (attempt_cases bs i lb)
    as [[Hctx Hat]|[(Hctx & Hat & Hbad)|(p & s & Hctx & Hp & Hs & H)]].
  { rewrite Hat. intros [= <- <- <-] _. right; left. simpl.
    rewrite Nat.add_0_r. split_and!; [lia|done..]. }
  { rewrite Hat. intros [= <- <- <-] _. right; right. simpl.
    rewrite Nat.add_0_r. split_and!; [lia|done..]. }
  assert (Hstep : ∀ lb1 e1 l1,
    attempt env model body apiType bs i lb = Continue lb1 e1 l1 →
    failure (at_result l1) = e1 →
    match attempt env model body apiType bs i lb with
    | Return lb1 log1 out1 => (lb1, option_list log1, out1)
    | Continue lb1 lastErr1 log1 =>
        let '(lb2, logs, out2) := retryLoop env model body apiType bs rem (S i) lb1 lastErr1 in
        (lb2, log1 :: logs, out2)
    end = (lb', log, out) → Forall failed log →
    (length log = S rem ∧
     out = match lastErr_after lastErr log with
           | Some err => JSON StatusServiceUnavailable "all backends failed"
                              (Some (Error err))
           | None => Panicked
           end) ∨
    ((length log < S rem)%nat ∧ ctxDone (env (i + length log)) = true ∧
     out = Cancelled) ∨
    ((length log < S rem)%nat ∧ out = Panicked ∧
     (bs !! ((i + length log) `mod` length bs)%nat = None ∨
      ∃ p, bs !! ((i + length log) `mod` length bs)%nat = Some p ∧
           deref lb' p = None))).
  { intros lb1 e1 l1 -> He1.
    destruct (retryLoop env model body apiType bs rem (S i) lb1 e1) as [[lb2 logs] out2] eqn:Hrec.
    intros [= <- <- <-] Hall. apply Forall_cons in Hall as [Hl1 Hall].
    simpl. replace (i + S (length logs))%nat with (S i + length logs)%nat by lia.
    destruct (IH _ _ _ _ _ _ Hrec Hall) as [[Hlen Hout]|[(Hlen & ? & ?)|(Hlen & ? & ?)]].
    - left. split; [lia|]. rewrite Hout. unfold lastErr_after.
      destruct logs as [|l2 logs]; [by simpl; rewrite He1|].
      rewrite last_cons_cons.
      destruct (last (l2 :: logs)) eqn:Hlast; [done|].
      by apply last_None in Hlast.
    - right; left. split_and!; [lia|done..].
    - right; right. split_and!; [lia|done..]. }
  simpl in H.
  destruct (newRequestErr (env i)) as [e|] eqn:Hnr;
    [|destruct (doResult (env i)) as [e|resp] eqn:Hdo;
      [|destruct H as [[Hc H]|[Hc H]]]].
  - eapply Hstep; [exact H|done].
  - eapply Hstep; [exact H|done].
  - eapply Hstep; [exact H|done].
  - rewrite H. intros [= <- <- <-] Hall. apply Forall_cons in Hall as [Hl1 _].
    by destruct Hl1.
Qed.

End dispatch_facts.

(** ** Replaying a log on the store *)

Section replay_facts.

Variable model : string.
Implicit Types (lb : LoadBalancer) (log : list AttemptLog).

Lemma deref_store lb p q f :
  deref (store p f lb) q = if decide (p = q) then f <$> deref lb q else deref lb q.
Proof.
  case_decide as Hpq; [subst q|by apply deref_store_ne].
  unfold deref, store. rewrite lookup_alter_eq.
  destruct (lb !! ref_model p) as [b|]; simpl; [|done].
  by rewrite list_lookup_alter_eq.
Qed.

Lemma deref_apply_mark lb l q :
  is_Some (lb !! model) →
  deref (apply_mark model lb l) q =
    if decide (at_backend l = q) then mark_status (at_mark l) <$> deref lb q
    else deref lb q.
Proof.
  intros [b Hb]. unfold apply_mark, mark_status, MarkUnhealthy, MarkHealthy.
  destruct (at_mark l); rewrite ?Hb, ?deref_store; try done.
  case_decide; [|done]. by destruct (deref lb q).
Qed.

Lemma apply_mark_is_Some lb l m :
  is_Some (apply_mark model lb l !! m) ↔ is_Some (lb !! m).
Proof.
  unfold apply_mark. destruct (at_mark l);
    [apply MarkUnhealthy_is_Some|apply MarkHealthy_is_Some|done].
Qed.

Lemma replay_cons l log lb :
  replay model (l :: log) lb = replay model log (apply_mark model lb l).
Proof. done. Qed.

Lemma replay_deref_is_Some log lb q :
  is_Some (lb !! model) →
  is_Some (deref (replay model log lb) q) ↔ is_Some (deref lb q).
Proof.
  revert lb. induction log as [|l log IH]; intros lb Hm; [done|].
  rewrite replay_cons, IH by by apply apply_mark_is_Some.
  rewrite deref_apply_mark by done. case_decide; [|done].
  by rewrite fmap_is_Some.
Qed.

Lemma replay_deref_notin log lb q :
  is_Some (lb !! model) → q ∉ at_backend <$> log →
  deref (replay model log lb) q = deref lb q.
Proof.
  revert lb. induction log as [|l log IH]; intros lb Hm Hq; [done|].
  rewrite fmap_cons in Hq. apply not_elem_of_cons in Hq as [Hne Hq].
  rewrite replay_cons, IH; [|by apply apply_mark_is_Some|done].
  rewrite deref_apply_mark by done. by rewrite decide_False.
Qed.

(** A backend named by exactly one entry of the log ends in the status
    that entry gives it. *)
Lemma replay_deref_in log lb j l :
  is_Some (lb !! model) → NoDup (at_backend <$> log) → log !! j = Some l →
  deref (replay model log lb) (at_backend l) =
    mark_status (at_mark l) <$> deref lb (at_backend l).
Proof.
  revert lb j. induction log as [|l0 log IH]; intros lb j Hm Hnd Hj; [done|].
  rewrite fmap_cons in Hnd. apply NoDup_cons in Hnd as [Hnotin Hnd].
  rewrite replay_cons. destruct j as [|j]; simpl in Hj.
  - injection Hj as ->.
    rewrite (replay_deref_notin log) by (by try apply apply_mark_is_Some).
    rewrite deref_apply_mark by done. by rewrite decide_True.
  - rewrite (IH _ j) by (by try apply apply_mark_is_Some).
    rewrite deref_apply_mark by done. rewrite decide_False; [done|].
    intros Heq. apply Hnotin. rewrite Heq.
    apply list_elem_of_fmap. exists l. split; [done|].
    by eapply list_elem_of_lookup_2.
Qed.

End replay_facts.

(** ** One inbound request *)

Section proxy_facts.

Variable cfg : config.Config.
Variable env : nat → Attempt.
Variable model : string.
Variable body : bytes.
Variable apiType : string.

Lemma attemptBound_min (bs : list BackendRef) :
  attemptBound cfg bs =
    Z.min (config.MaxAttempts (config.Retry cfg)) (Z.of_nat (length bs)).
Proof. unfold attemptBound. case_match; lia. Qed.

(** A model that is unknown, or known with an empty pool, is answered
    503 without touching anything. *)
Lemma proxyWithModel_no_backends (lb : LoadBalancer) :
  (∀ balancer, lb !! model = Some balancer → backends balancer = []) →
  proxyWithModel cfg env model body apiType lb =
    (lb, [], JSON StatusServiceUnavailable "no backends available" None).
Proof.
  intros Hempty. unfold handlers.proxyWithModel, GetAllBackends.
  destruct (lb !! model) as [balancer|]; [|done].
  by rewrite (Hempty balancer eq_refl).
Qed.

Section run.

Variables (lb lb' : LoadBalancer) (balancer : ModelBalancer).
Variables (log : list AttemptLog) (out : Outcome).
Hypothesis Hlb : lb !! model = Some balancer.
Hypothesis Hrun :
  proxyWithModel cfg env model body apiType lb = (lb', log, out).

Lemma proxyWithModel_empty_log :
  length (backends balancer) = 0%nat → log = [].
Proof using Hlb Hrun.
  set (n := length (backends balancer)) in *.
  intros Hn. rewrite proxyWithModel_no_backends in Hrun; [by injection Hrun|].
  intros b Hb. rewrite Hlb in Hb. injection Hb as <-.
  by apply length_zero_iff_nil.
Qed.

(** With a non-empty pool the handler is the retry loop over the
    failover sequence. *)
Lemma proxyWithModel_loop :
  length (backends balancer) ≠ 0%nat →
  let bs := failoverSequence model balancer in
  handlers.retryLoop env model body apiType bs
    (Z.to_nat (attemptBound cfg bs)) 0 lb None = (lb', log, out) ∧
  length bs = length (backends balancer) ∧ NoDup bs ∧
  (∀ p, p ∈ bs → is_Some (deref lb p)).
Proof using Hlb Hrun.
  set (n := length (backends balancer)) in *.
  intros Hn bs.
  assert (Hne : backends balancer ≠ []).
  { intros Heq. apply Hn. subst n. by rewrite Heq. }
  destruct (failoverSequence_facts lb model balancer Hlb Hne)
  as (Hlen & Hat & Hnd & _).
fold bs in Hlen, Hat, Hnd.
  fold n in Hlen, Hat. split_and!; [|done..|].
  - unfold handlers.proxyWithModel in Hrun.
    rewrite (GetAllBackends_Some lb model balancer Hlb Hne) in Hrun.
    simpl in Hrun. fold bs in Hrun.
    rewrite decide_False in Hrun by lia. done.
  - intros p Hp. apply list_elem_of_lookup in Hp as [i Hi].
    assert (i < n)%nat as Hin by (rewrite <- Hlen; by eapply lookup_lt_Some).
    destruct (Hat i Hin) as [Hi' Hd]. rewrite Hi in Hi'. injection Hi' as ->.
    rewrite Hd. apply lookup_lt_is_Some_2. by apply Nat.mod_upper_bound.
Qed.

Lemma proxyWithModel_length :
  Z.of_nat (length log) ≤
    Z.max 0 (Z.min (config.MaxAttempts (config.Retry cfg)) (Z.of_nat (length (backends balancer)))).
Proof using Hlb Hrun.
  set (n := length (backends balancer)) in *.
  destruct (decide (n = 0%nat)) as [Hn|Hn].
  { rewrite (proxyWithModel_empty_log Hn). simpl. lia. }
  destruct (proxyWithModel_loop Hn) as (Hloop & Hlen & _).
  apply retryLoop_length in Hloop. rewrite attemptBound_min, Hlen in Hloop. lia.
Qed.

Lemma proxyWithModel_replay : lb' = replay model log lb.
Proof using Hlb Hrun.
  set (n := length (backends balancer)) in *.
  destruct (decide (n = 0%nat)) as [Hn|Hn].
  { rewrite proxyWithModel_no_backends in Hrun; [by injection Hrun as <- <- _|].
    intros b Hb. rewrite Hlb in Hb. injection Hb as <-.
    by apply length_zero_iff_nil. }
  destruct (proxyWithModel_loop Hn) as (Hloop & _).
  by eapply retryLoop_replay.
Qed.


(** Entry [j] of the log is the record of iteration [j]; it names
    the backend at place [j] of the failover sequence. *)
Lemma proxyWithModel_entry j l :
  log !! j = Some l →
  records (env j) l ∧
  failoverSequence model balancer !! j = Some (at_backend l) ∧
  Z.of_nat j < Z.min (config.MaxAttempts (config.Retry cfg)) (Z.of_nat (length (backends balancer))) ∧
  (∀ resp, at_result l = Answered resp →
     length log = S j ∧
     out = if Contains (ContentType resp) "text/event-stream"
           then StreamResponse resp else NormalResponse resp).
Proof using Hlb Hrun.
  set (n := length (backends balancer)) in *.
  set (bound := Z.min (config.MaxAttempts (config.Retry cfg)) (Z.of_nat n)) in *.
  intros Hj.
  assert (Hn : n ≠ 0%nat).
  { intros Hn. by rewrite (proxyWithModel_empty_log Hn) in Hj. }
  destruct (proxyWithModel_loop Hn) as (Hloop & Hlen & _).
  pose proof Hloop as Hle. apply retryLoop_length in Hle.
  rewrite attemptBound_min, Hlen in Hle.
  apply lookup_lt_Some in Hj as Hjlt.
  edestruct retryLoop_entries as (Hrec & Hbs & _ & _ & Hans);
    [exact Hloop|exact Hj|].
  simpl in Hrec, Hbs. rewrite Hlen, Nat.mod_small in Hbs by lia.
  split_and!; [done|done|unfold bound; lia|done].
Qed.

Lemma proxyWithModel_log_backends :
  at_backend <$> log = take (length log) (failoverSequence model balancer).
Proof using Hlb Hrun.
  apply list_eq. intros j. rewrite list_lookup_fmap.
  destruct (log !! j) as [l|] eqn:Hj; simpl.
  - destruct (proxyWithModel_entry _ _ Hj) as (_ & Hbs & _).
    rewrite lookup_take_lt by by eapply lookup_lt_Some. done.
  - symmetry. apply lookup_ge_None. apply lookup_ge_None in Hj.
    rewrite length_take. lia.
Qed.

Lemma proxyWithModel_log_NoDup : NoDup (at_backend <$> log).
Proof using Hlb Hrun.
  set (n := length (backends balancer)) in *.
  destruct (decide (n = 0%nat)) as [Hn|Hn].
  { rewrite (proxyWithModel_empty_log Hn). constructor. }
  destruct (proxyWithModel_loop Hn) as (_ & _ & Hnd & _).
  rewrite proxyWithModel_log_backends.
  eapply sublist_NoDup; [exact Hnd|apply sublist_take].
Qed.

(** The backend of a log entry ends in the status the entry gives
    it: no other attempt of the request touches it. *)
Lemma proxyWithModel_final_status j l :
  log !! j = Some l →
  deref lb' (at_backend l) = mark_status (at_mark l) <$> deref lb (at_backend l) ∧
  is_Some (deref lb (at_backend l)).
Proof using Hlb Hrun.
  set (n := length (backends balancer)) in *.
  intros Hj.
  assert (Hn : n ≠ 0%nat).
  { intros Hn. by rewrite (proxyWithModel_empty_log Hn) in Hj. }
  destruct (proxyWithModel_loop Hn) as (_ & _ & _ & Hvalid).
  split.
  - rewrite proxyWithModel_replay.
    eapply replay_deref_in; [by rewrite Hlb|apply proxyWithModel_log_NoDup|done].
  - apply Hvalid. destruct (proxyWithModel_entry _ _ Hj) as (_ & Hbs & _).
    by eapply list_elem_of_lookup_2.
Qed.

(** After a failed attempt the loop goes on: unless the bound is
    reached or the inbound context is done, the next iteration is
    made. *)
Lemma proxyWithModel_continues j l :
  log !! j = Some l → failed l →
  Z.of_nat (S j) < Z.min (config.MaxAttempts (config.Retry cfg)) (Z.of_nat (length (backends balancer))) →
  ctxDone (env (S j)) = false →
  is_Some (log !! S j).
Proof using Hlb Hrun.
  set (n := length (backends balancer)) in *.
  set (bound := Z.min (config.MaxAttempts (config.Retry cfg)) (Z.of_nat n)) in *.
  intros Hj Hfail Hbound Hctx.
  assert (Hn : n ≠ 0%nat).
  { intros Hn. by rewrite (proxyWithModel_empty_log Hn) in Hj. }
  destruct (proxyWithModel_loop Hn) as (Hloop & Hlen & _ & Hvalid).
  destruct (log !! S j) as [l'|] eqn:Hj'; [by eexists|exfalso].
  apply lookup_ge_None in Hj'. apply lookup_lt_Some in Hj as Hjlt.
  assert (Hlog : length log = S j) by lia.
  assert (Hall : Forall failed log).
  { apply Forall_lookup. intros k x Hk.
    destruct (proxyWithModel_entry _ _ Hk) as (Hrec & _ & _ & Hans).
    destruct (records_failed_or_answered _ _ Hrec) as [|[resp Hresp]]; [done|].
    destruct (Hans _ Hresp) as [Hlast _].
    assert (k = j) as -> by lia. by rewrite Hj in Hk; injection Hk as <-. }
  rewrite attemptBound_min, Hlen in Hloop. fold n bound in Hloop.
  edestruct retryLoop_end as [[Hfull _]|[(_ & Hdone & _)|(_ & _ & Hbad)]];
    [exact Hloop|exact Hall|..].
  - lia.
  - rewrite Hlog in Hdone. simpl in Hdone. congruence.
  - rewrite Hlog, Hlen in Hbad. simpl in Hbad.
    rewrite Nat.mod_small in Hbad by (unfold bound in Hbound; lia).
    destruct (lookup_lt_is_Some_2 (failoverSequence model balancer) (S j))
      as [p Hp]; [unfold bound in Hbound; lia|].
    destruct Hbad as [Hnone|(q & Hq & Hderef)]; [congruence|].
    rewrite Hp in Hq. injection Hq as <-.
    rewrite proxyWithModel_replay in Hderef.
    assert (is_Some (deref (replay model log lb) p)) as [? ?]; [|congruence].
    apply replay_deref_is_Some; [by rewrite Hlb|].
    apply Hvalid. by eapply list_elem_of_lookup_2.
Qed.

End run.

End proxy_facts.

(** ** The recovery sweep and the fail counter *)

Lemma Since_exceeds (now u : time.Time) :
  (loadbalancer.defaultRecoveryTimeout <? time.Since now u) = true ↔
  30 * time.Second < now - u.
Proof.
  unfold loadbalancer.defaultRecoveryTimeout, time.Since, time.Sub,
    time.maxDuration, time.minDuration, time.Second.
  rewrite Z.ltb_lt. lia.
Qed.

Lemma deref_healthCheckTick (clock : string → nat → time.Time)
    (lb : LoadBalancer) (p : BackendRef) :
  deref (healthCheckTick clock lb) p =
    recover (clock (ref_model p) (ref_index p)) <$> deref lb p.
Proof.
  unfold deref, healthCheckTick. rewrite map_lookup_imap.
  destruct (lb !! ref_model p) as [b|]; simpl; [|done].
  by rewrite list_lookup_imap.
Qed.

Lemma deref_GetNext (model : string) (lb : LoadBalancer) (p : BackendRef) :
  deref (GetNext model lb).2 p = deref lb p.
Proof.
  unfold GetNext. destruct (lb !! model) as [b|] eqn:Hb; [|done].
  case_decide as Hn; [done|].
  destruct (GetNext_loop _ _ b) as [found b'] eqn:Hloop.
  apply GetNext_loop_spec in Hloop as [Hbk _]; [|done..].
  assert (deref (<[model:=b']> lb) p = deref lb p) as Heq.
  { unfold deref. destruct (decide (model = ref_model p)) as [->|Hne].
    - rewrite lookup_insert_eq, Hb. simpl. by rewrite Hbk.
    - by rewrite lookup_insert_ne. }
  by destruct found.
Qed.

Lemma deref_GetAllBackends (model : string) (lb : LoadBalancer) :
  (GetAllBackends model lb).2 = lb.
Proof.
  unfold GetAllBackends. destruct (lb !! model); [|done]. by case_decide.
Qed.

Lemma wrap_int32_succ_nonzero (z : Z) :
  0 ≤ z < 2 ^ 31 → wrap_int32 (z + 1) ≠ 0.
Proof.
  intros Hz. unfold wrap_int32.
  destruct (decide (z = 2 ^ 31 - 1)) as [->|Hmax]; [done|].
  rewrite Z.mod_small by lia. lia.
Qed.

(** The fail counter of a backend changes only through the two health
    updates, applied to that very backend. *)
Lemma run_op_FailCount (op : Op) (lb : LoadBalancer) (p : BackendRef)
    (s s' : BackendStatus) :
  deref lb p = Some s → deref (run_op op lb) p = Some s' →
  FailCount s' ≠ FailCount s →
  (∃ model now, op = OpMarkHealthy model p now ∧ FailCount s' = 0) ∨
  (∃ model now, op = OpMarkUnhealthy model p now ∧
                FailCount s' = wrap_int32 (FailCount s + 1)).
Proof.
  intros Hs Hs' Hne. destruct op as [m|m|m q t|m q t|clock]; simpl in Hs'.
  - rewrite deref_GetNext in Hs'. congruence.
  - rewrite deref_GetAllBackends in Hs'. congruence.
  - right. unfold MarkUnhealthy in Hs'. destruct (lb !! m); [|congruence].
    rewrite deref_store in Hs'. case_decide; [subst q|congruence].
    rewrite Hs in Hs'. injection Hs' as <-. by exists m, t.
  - left. unfold MarkHealthy in Hs'. destruct (lb !! m); [|congruence].
    rewrite deref_store in Hs'. case_decide; [subst q|congruence].
    rewrite Hs in Hs'. injection Hs' as <-. by exists m, t.
  - rewrite deref_healthCheckTick, Hs in Hs'. injection Hs' as <-.
    unfold recover in Hne. by case_match.
Qed.

(** However many ticks of the sweep fire, fail counter and check time
    stay, and a healthy backend stays healthy. *)
Lemma deref_StartHealthCheck (ticks : list (string → nat → time.Time))
    (lb : LoadBalancer) (p : BackendRef) (s : BackendStatus) :
  deref lb p = Some s →
  ∃ s', deref (StartHealthCheck ticks lb) p = Some s' ∧
        FailCount s' = FailCount s ∧ LastChecked s' = LastChecked s ∧
        Backend s' = Backend s ∧ (Healthy s = true → Healthy s' = true).
Proof.
  revert lb s. induction ticks as [|clock ticks IH]; intros lb s Hs.
  { exists s. by split. }
  destruct (IH (healthCheckTick clock lb)
               (recover (clock (ref_model p) (ref_index p)) s))
    as (s' & Hs' & Hfc & Hlc & Hbk & Hh).
  { by rewrite deref_healthCheckTick, Hs. }
  exists s'. split; [done|].
  unfold recover in *. destruct (negb (Healthy s) && _) eqn:Hcond; simpl in *.
  - split_and!; [done..|]. intros _. by apply Hh.
  - done.
Qed.

(** The writes of a request are the health updates of its log, and
    every entry of the log is the record of its iteration. *)
Lemma proxyWithModel_marks (cfg : config.Config) (env : nat → Attempt)
    (model : string) (body : bytes) (apiType : string)
    (lb lb' : LoadBalancer) (log : list AttemptLog) (out : Outcome) :
  proxyWithModel cfg env model body apiType lb = (lb', log, out) →
  lb' = replay model log lb ∧ ∀ j l, log !! j = Some l → records (env j) l.
Proof.
  intros Hrun. destruct (lb !! model) as [balancer|] eqn:Hlb.
  - split; [by eapply proxyWithModel_replay|].
    intros j l Hj. by edestruct proxyWithModel_entry as [? _].
  - rewrite proxyWithModel_no_backends in Hrun by (intros; congruence).
    by injection Hrun as <- <- _.
Qed.

(** C7.  One tick of the recovery sweep sets [Healthy] for the backends
    that are unhealthy and whose [LastChecked] lies more than 30 seconds
    before the clock reading taken for them, and for no other; it
    changes neither [FailCount] nor [LastChecked], and so does any
    number of ticks.  Among the
    operations on a running load balancer, only the two health updates
    change the fail counter of a backend: [MarkUnhealthy] adds one,
    [MarkHealthy] stores zero, so a counter that holds failures comes
    back to zero through [MarkHealthy] alone.  The dispatcher writes
    the store through the health updates of its log only, and calls
    [MarkHealthy] only for an attempt that was answered with a status
    below 500. *)
Theorem healthCheckTick_recovers_stale_only :
  (∀ (clock : string → nat → time.Time) (lb : LoadBalancer)
     (p : BackendRef) (s : BackendStatus),
     deref lb p = Some s →
     let elapsed := clock (ref_model p) (ref_index p) - LastChecked s in
     ∃ s', deref (healthCheckTick clock lb) p = Some s' ∧
       FailCount s' = FailCount s ∧
       LastChecked s' = LastChecked s ∧
       Backend s' = Backend s ∧
       (Healthy s' = true ↔ Healthy s = true ∨ 30 * time.Second < elapsed) ∧
       (Healthy s' ≠ Healthy s ↔
          Healthy s = false ∧ 30 * time.Second < elapsed)) ∧
  (∀ (ticks : list (string → nat → time.Time)) (lb : LoadBalancer)
     (p : BackendRef) (s : BackendStatus),
     deref lb p = Some s →
     ∃ s', deref (StartHealthCheck ticks lb) p = Some s' ∧
       FailCount s' = FailCount s ∧ LastChecked s' = LastChecked s) ∧
  (∀ (op : Op) (lb : LoadBalancer) (p : BackendRef) (s s' : BackendStatus),
     deref lb p = Some s → deref (run_op op lb) p = Some s' →
     (FailCount s' ≠ FailCount s →
        (∃ model now, op = OpMarkHealthy model p now ∧ FailCount s' = 0) ∨
        (∃ model now, op = OpMarkUnhealthy model p now ∧
                      FailCount s' = wrap_int32 (FailCount s + 1))) ∧
     (0 < FailCount s < 2 ^ 31 → FailCount s' = 0 →
        ∃ model now, op = OpMarkHealthy model p now)) ∧
  (∀ (cfg : config.Config) (env : nat → Attempt) (model : string)
     (body : bytes) (apiType : string) (lb lb' : LoadBalancer)
     (log : list AttemptLog) (out : Outcome),
     proxyWithModel cfg env model body apiType lb = (lb', log, out) →
     lb' = replay model log lb ∧
     ∀ l now, l ∈ log → at_mark l = MarkedHealthy now →
       ∃ resp, at_result l = Answered resp ∧ StatusCode resp < 500).
Proof.
  split_and!.
  - intros clock lb p s Hs elapsed.
    exists (recover (clock (ref_model p) (ref_index p)) s).
    rewrite deref_healthCheckTick, Hs. split; [done|].
    unfold recover.
    destruct (Healthy s) eqn:Hh; simpl.
    { rewrite Hh. split_and!; [done..|intuition congruence|intuition congruence]. }
    destruct (defaultRecoveryTimeout <? _) eqn:Hcmp; simpl.
    + apply Since_exceeds in Hcmp. fold elapsed in Hcmp.
      split_and!; [done..|intuition congruence|intuition congruence].
    + assert (¬ 30 * time.Second < elapsed) as Hnot.
      { intros Hlt. apply Since_exceeds in Hlt. congruence. }
      rewrite Hh. split_and!; [done..|intuition congruence|intuition congruence].
  - intros ticks lb p s Hs.
    destruct (deref_StartHealthCheck ticks lb p s Hs) as (s' & ? & ? & ? & _).
    by exists s'.
  - intros op lb p s s' Hs Hs'. split; [by apply (run_op_FailCount op lb)|].
    intros Hrange Hzero.
    destruct (run_op_FailCount op lb p s s' Hs Hs') as [(m & t & -> & _)|(m & t & _ & Hfc)];
      [lia|by eauto|].
    exfalso. rewrite Hzero in Hfc. symmetry in Hfc.
    by apply wrap_int32_succ_nonzero in Hfc; [|lia].
  - intros cfg env model body apiType lb lb' log out Hrun.
    destruct (proxyWithModel_marks _ _ _ _ _ _ _ _ _ Hrun) as [Hrep Hrec].
    split; [done|]. intros l t Hl Hmark.
    apply list_elem_of_lookup in Hl as [j Hj].
    destruct (Hrec j l Hj) as [_ H]. rewrite Hmark in H.
    destruct (newRequestErr (env j)); [by destruct H|].
    destruct (doResult (env j)) as [e|resp]; [by destruct H|].
    destruct (500 <=? StatusCode resp) eqn:Hc; [by destruct H|].
    destruct H as [-> _]. exists resp. split; [done|lia].
Qed.

Lemma healthCheckTick_recovers_stale_only_witness :
  (∃ s', deref (healthCheckTick sample.clockLate sample.lbDown) (mkRef "gpt-4" 0)
           = Some s' ∧
         FailCount s' = 1 ∧ Healthy s' = true) ∧
  (∃ s', deref (StartHealthCheck [sample.clockLate; sample.clockLate] sample.lbDown)
                 (mkRef "gpt-4" 1) = Some s' ∧
         FailCount s' = 1 ∧ LastChecked s' = 6) ∧
  (∃ model now,
     OpMarkHealthy "gpt-4" (mkRef "gpt-4" 0) 7 =
       OpMarkHealthy model (mkRef "gpt-4" 0) now) ∧
  (let run := proxyWithModel sample.cfgTwo sample.envFailover "gpt-4" []
                "chat/completions" sample.lbTwo in
   run.1.1 = replay "gpt-4" run.1.2 sample.lbTwo).
Proof.
  destruct healthCheckTick_recovers_stale_only as (Htick & Hticks & Hop & Hrun).
  split_and!.
  - destruct (Htick sample.clockLate sample.lbDown (mkRef "gpt-4" 0)
                (sample.down sample.backendA 5) eq_refl)
      as (s' & Hs' & Hfc & _ & _ & Hh & _).
    exists s'. split_and!; [exact Hs'|exact Hfc|].
    apply Hh. right. vm_compute. reflexivity.
  - exact (Hticks [sample.clockLate; sample.clockLate] sample.lbDown
                  (mkRef "gpt-4" 1) (sample.down sample.backendB 6) eq_refl).
  - apply (Hop (OpMarkHealthy "gpt-4" (mkRef "gpt-4" 0) 7) sample.lbDown
               (mkRef "gpt-4" 0) (sample.down sample.backendA 5)
               (markHealthy 7 (sample.down sample.backendA 5)) eq_refl eq_refl).
    + vm_compute. split; reflexivity.
    + reflexivity.
  - destruct (proxyWithModel sample.cfgTwo sample.envFailover "gpt-4" []
                "chat/completions" sample.lbTwo) as [[lb' log] out] eqn:Hrun'.
    exact (proj1 (Hrun _ _ _ _ _ _ _ _ _ Hrun')).
Defined.

(** ** The dispatcher *)



(** C6.  A request for a configured model makes at most
    [min(MaxAttempts, pool size)] attempts (none when that minimum is
    negative).  When the attempts allowed by the bound have all been
    made and each of them failed, the handler answers 503 with the
    error text of the last failure as detail. *)
Theorem proxyWithModel_attempts_bounded
    (cfg : config.Config) (env : nat → Attempt) (model : string)
    (body : bytes) (apiType : string) (lb lb' : LoadBalancer)
    (balancer : ModelBalancer) (log : list AttemptLog) (out : Outcome) :
  lb !! model = Some balancer →
  proxyWithModel cfg env model body apiType lb = (lb', log, out) →
  let bound := Z.min (config.MaxAttempts (config.Retry cfg))
                     (Z.of_nat (length (backends balancer))) in
  Z.of_nat (length log) ≤ Z.max 0 bound ∧
  (∀ l, Z.of_nat (length log) = bound → Forall failed log → last log = Some l →
     ∃ err, failure (at_result l) = Some err ∧
            out = JSON 503 "all backends failed" (Some (Error err))).
Proof.
  intros Hlb Hrun bound.
  split; [by eapply proxyWithModel_length|].
  intros l Hfull Hall Hlast.
  assert (Hn : length (backends balancer) ≠ 0%nat).
  { intros Hn. rewrite (proxyWithModel_empty_log _ _ _ _ _ _ _ _ _ _ Hlb Hrun Hn) in Hlast.
    done. }
  edestruct proxyWithModel_loop as (Hloop & Hlen & _); [exact Hlb|exact Hrun|exact Hn|].
  rewrite attemptBound_min, Hlen in Hloop.
  edestruct retryLoop_end as [[_ Hout]|[(Hlt & _)|(Hlt & _)]];
    [exact Hloop|exact Hall|..]; [|unfold bound in Hfull; lia..].
  unfold lastErr_after in Hout. rewrite Hlast in Hout.
  assert (failed l) as [err Herr].
  { eapply Forall_forall; [exact Hall|]. by apply last_Some_elem_of. }
  exists err. split; [done|]. by rewrite Herr in Hout.
Qed.

Lemma proxyWithModel_attempts_bounded_witness :
  ∃ lb' log l,
    proxyWithModel sample.cfgTwo sample.envAllFail "gpt-4" []
      "chat/completions" sample.lbTwo =
      (lb', log, JSON 503 "all backends failed"
                      (Some "dial tcp: connection refused")) ∧
    Z.of_nat (length log) ≤ 2 ∧ last log = Some l.
Proof.
  destruct (proxyWithModel sample.cfgTwo sample.envAllFail "gpt-4" []
              "chat/completions" sample.lbTwo) as [[lb' log] out] eqn:Hrun.
  destruct (proxyWithModel_attempts_bounded sample.cfgTwo sample.envAllFail
              "gpt-4" [] "chat/completions" sample.lbTwo lb' sample.poolTwo
              log out) as [Hbound Hlast]; [reflexivity|exact Hrun|].
  assert (Hlog : ∃ l, last log = Some l ∧ Error <$> failure (at_result l)
                        = Some "dial tcp: connection refused" ∧
                      Z.of_nat (length log) = 2 ∧ Forall failed log).
  { vm_compute in Hrun. injection Hrun as _ <- _. eexists.
    split_and!; [reflexivity..|]. repeat constructor; by eexists. }
  destruct Hlog as (l & Hl & Htext & Hfull & Hall).
  destruct (Hlast l Hfull Hall Hl) as (err & Herr & ->).
  rewrite Herr in Htext. injection Htext as ->.
  exists lb', log, l. split_and!; [reflexivity|exact Hbound|exact Hl].
Defined.

(** When the inbound context is done at the first poll, the handler
    returns without an attempt, a response or a health update. *)
Lemma proxyWithModel_cancelled_at_first_poll
    (cfg : config.Config) (env : nat → Attempt) (model : string)
    (body : bytes) (apiType : string) (lb : LoadBalancer)
    (balancer : ModelBalancer) :
  lb !! model = Some balancer → backends balancer ≠ [] →
  0 < config.MaxAttempts (config.Retry cfg) →
  ctxDone (env 0%nat) = true →
  proxyWithModel cfg env model body apiType lb = (lb, [], Cancelled).
Proof.
  intros Hlb Hne Hmax Hctx. unfold proxyWithModel.
  rewrite (GetAllBackends_Some lb model balancer Hlb Hne). simpl.
  assert (length (failoverSequence model balancer) = length (backends balancer)) as Hlen.
  { unfold failoverSequence. by rewrite length_fmap, length_seq. }
  assert (length (backends balancer) ≠ 0%nat) as Hn.
  { destruct (backends balancer); [done|simpl; lia]. }
  rewrite decide_False by lia.
  rewrite attemptBound_min, Hlen.
  destruct (Z.to_nat _) as [|rem] eqn:Hrem; [lia|].
  simpl. unfold attempt. by rewrite Hctx.
Qed.

(** With a retry policy that allows no attempt the handler reaches
    [lastErr.Error()] with a nil [lastErr]. *)
Lemma proxyWithModel_no_attempt_allowed
    (cfg : config.Config) (env : nat → Attempt) (model : string)
    (body : bytes) (apiType : string) (lb : LoadBalancer)
    (balancer : ModelBalancer) :
  lb !! model = Some balancer → backends balancer ≠ [] →
  config.MaxAttempts (config.Retry cfg) ≤ 0 →
  proxyWithModel cfg env model body apiType lb = (lb, [], Panicked).
Proof.
  intros Hlb Hne Hmax. unfold proxyWithModel.
  rewrite (GetAllBackends_Some lb model balancer Hlb Hne). simpl.
  assert (length (failoverSequence model balancer) = length (backends balancer)) as Hlen.
  { unfold failoverSequence. by rewrite length_fmap, length_seq. }
  assert (length (backends balancer) ≠ 0%nat) as Hn.
  { destruct (backends balancer); [done|simpl; lia]. }
  rewrite decide_False by lia.
  rewrite attemptBound_min, Hlen.
  destruct (Z.to_nat _) as [|rem] eqn:Hrem; [done|lia].
Qed.

(** C3 at the failing input.  Two healthy backends; the caller goes
    away while the first outbound call is in flight, so [client.Do]
    returns the cancellation as its error.  The handler takes the error
    for a fault of the backend: it calls [MarkUnhealthy] on the first
    backend, and only the poll of the next iteration ends the loop. *)
Theorem proxyWithModel_marks_on_cancelled_call :
  let backend := mkRef "gpt-4" 0 in
  proxyWithModel sample.cfgTwo sample.envCallerCancels "gpt-4" []
    "chat/completions" sample.lbTwo =
    (MarkUnhealthy "gpt-4" backend 100 sample.lbTwo,
     [ {| at_backend := backend;
          at_url := "https://a.example/openai/deployments/gpt-4/chat/completions?api-version=2025-04-01-preview";
          at_body := [];
          at_result := CallFailed sample.canceled;
          at_mark := MarkedUnhealthy 100 |} ],
     Cancelled) ∧
  isCanceled sample.canceled = true ∧
  deref sample.lbTwo backend = Some (sample.up sample.backendA) ∧
  deref (MarkUnhealthy "gpt-4" backend 100 sample.lbTwo) backend =
    Some {| Backend := sample.backendA; Healthy := false;
            LastChecked := 100; FailCount := 1 |}.
Proof. vm_compute. split_and!; reflexivity. Qed.

(** ** A model without backends *)

(** C2 (amended).  [Init] accepts a model configured with zero backends
    and gives it an empty pool.  [HasModel] then reports the model as
    configured, both selections return [nil] for it, and the dispatcher
    answers every request for it with 503 "no backends available",
    without an attempt and without a change to the load balancer. *)
Theorem Init_keeps_empty_pool
    (cfg : config.Config) (lb0 : LoadBalancer) (model : string)
    (modelCfg : config.ModelConfig) :
  config.Models cfg !! model = Some modelCfg →
  config.Backends modelCfg = [] →
  let lb := Init cfg lb0 in
  lb !! model = Some {| backends := []; current := 0 |} ∧
  HasModel model lb = true ∧
  GetNext model lb = (None, lb) ∧
  GetAllBackends model lb = (None, lb) ∧
  ∀ (env : nat → Attempt) (body : bytes) (apiType : string),
    proxyWithModel cfg env model body apiType lb =
      (lb, [], JSON 503 "no backends available" None).
Proof.
  intros Hcfg Hempty lb.
  assert (Hlb : lb !! model = Some {| backends := []; current := 0 |}).
  { unfold lb. rewrite Init_lookup, Hcfg. unfold newBalancer. by rewrite Hempty. }
  split_and!; [done| | | |].
  - apply HasModel_true. by rewrite Hlb.
  - unfold GetNext. by rewrite Hlb.
  - unfold GetAllBackends. by rewrite Hlb.
  - intros env body apiType. apply proxyWithModel_no_backends.
    intros b Hb. rewrite Hlb in Hb. by injection Hb as <-.
Qed.

Lemma Init_keeps_empty_pool_witness :
  HasModel "gpt-4" (Init sample.cfgEmpty ∅) = true ∧
  GetAllBackends "gpt-4" (Init sample.cfgEmpty ∅) = (None, Init sample.cfgEmpty ∅).
Proof.
  destruct (Init_keeps_empty_pool sample.cfgEmpty ∅ "gpt-4" (config.mkModelConfig []))
    as (_ & Hhas & _ & Hall & _); [reflexivity|reflexivity|].
  split; [exact Hhas|exact Hall].
Defined.

(** C2 as stated fails on a configuration whose only model has no
    backend: [Init] builds a load balancer that knows the model, and a
    request for the model is answered 503 by the handler. *)
Lemma Init_rejects_empty_pool_counterexample :
  let lb := Init sample.cfgEmpty ∅ in
  lb = {[ "gpt-4" := {| backends := []; current := 0 |} ]} ∧
  HasModel "gpt-4" lb = true ∧
  proxyWithModel sample.cfgEmpty sample.envFailover "gpt-4" []
    "chat/completions" lb =
    (lb, [], JSON 503 "no backends available" None).
Proof. vm_compute. split_and!; reflexivity. Qed.

(** ** The request transformer *)

Section transform_facts.

Context {Value : Type}.
Variable Unmarshal : bytes → option (gmap string Value).
Variable Marshal : gmap string Value → option bytes.

Implicit Types (data : gmap string Value) (st : gmap string Value * bool).

Lemma renameMaxTokens_applies data :
  needsRename data →
  (renameMaxTokens data).2 = true ∧
  ∀ k, (renameMaxTokens data).1 !! k =
         if decide (k = "max_tokens") then None
         else if decide (k = "max_completion_tokens") then data !! "max_tokens"
         else data !! k.
Proof.
  intros [[v Hv] Hnew]. unfold renameMaxTokens. rewrite Hv, Hnew. simpl.
  split; [done|]. intros k.
  case_decide as Hk; [subst; by rewrite lookup_delete_eq|].
  rewrite lookup_delete_ne by done.
  case_decide as Hk'; [subst; by rewrite lookup_insert_eq|].
  by rewrite lookup_insert_ne.
Qed.

Lemma renameMaxTokens_skips data :
  ¬ needsRename data → renameMaxTokens data = (data, false).
Proof.
  intros Hno. unfold renameMaxTokens, needsRename in *.
  destruct (data !! "max_tokens") as [v|]; [|done].
  destruct (data !! "max_completion_tokens"); [done|].
  destruct Hno. by eauto.
Qed.

Lemma removeParam_lookup st param k :
  (removeParam st param).1 !! k = if decide (k = param) then None else st.1 !! k.
Proof.
  unfold removeParam. destruct (st.1 !! param) eqn:Hp; simpl.
  - case_decide; [subst; apply lookup_delete_eq|by apply lookup_delete_ne].
  - case_decide; [by subst|done].
Qed.

Lemma removeParams_lookup st params k :
  (foldl removeParam st params).1 !! k =
    if decide (k ∈ params) then None else st.1 !! k.
Proof.
  revert st. induction params as [|p params IH]; intros st; cbn [foldl].
  { rewrite decide_False; [done|]. apply not_elem_of_nil. }
  rewrite IH, removeParam_lookup.
  destruct (decide (k = p)) as [->|Hne].
  - rewrite (decide_True (P := p ∈ p :: params)) by apply list_elem_of_here.
    by case_decide.
  - destruct (decide (k ∈ params)) as [Hin|Hnotin].
    + by rewrite decide_True by by apply list_elem_of_further.
    + rewrite decide_False; [done|]. by apply not_elem_of_cons.
Qed.

(** The flag stays down exactly when nothing was there to remove, and
    then the map is the one the loop started with. *)
Lemma removeParams_unmodified st params :
  (foldl removeParam st params).2 = false ↔
  st.2 = false ∧ ∀ p, p ∈ params → st.1 !! p = None.
Proof.
  revert st. induction params as [|p params IH]; intros st; cbn [foldl].
  { split; [|by intros []]. split; [done|]. by intros p ?%elem_of_nil. }
  rewrite IH. unfold removeParam at 1 2.
  destruct (st.1 !! p) eqn:Hp; simpl.
  - split; [by intros []|]. intros [_ Hall].
    specialize (Hall p (list_elem_of_here _ _)). congruence.
  - split.
    + intros [Hflag Hall]. split; [done|].
      intros q [->|Hq]%elem_of_cons; [done|by apply Hall].
    + intros [Hflag Hall]. split; [done|].
      intros q Hq. apply Hall. by apply list_elem_of_further.
Qed.

Lemma removeParams_id st params :
  st.2 = false → (∀ p, p ∈ params → st.1 !! p = None) →
  foldl removeParam st params = st.
Proof.
  revert st. induction params as [|p params IH]; intros st Hflag Hall; [done|].
  simpl. assert (removeParam st p = st) as ->.
  { unfold removeParam. by rewrite (Hall p (list_elem_of_here _ _)). }
  apply IH; [done|]. intros q Hq. apply Hall. by apply list_elem_of_further.
Qed.

Lemma transformData_unmodified data :
  (transformData data).2 = false ↔
  ¬ needsRename data ∧ ∀ p, p ∈ unsupportedParams → data !! p = None.
Proof.
  unfold transformData. rewrite removeParams_unmodified.
  destruct (decide (needsRename data)) as [Hyes|Hno].
  - destruct (renameMaxTokens_applies data Hyes) as [Hflag _].
    rewrite Hflag. split; [by intros []|by intros []].
  - rewrite (renameMaxTokens_skips data Hno). simpl. split; by intros [].
Qed.

Lemma transformData_id data :
  (transformData data).2 = false → transformData data = (data, false).
Proof.
  intros Hflag. apply transformData_unmodified in Hflag as Hcond.
  destruct Hcond as [Hno Hall]. unfold transformData.
  rewrite (renameMaxTokens_skips data Hno). by apply removeParams_id.
Qed.

(** The map the transformer emits. *)
Lemma transformData_lookup data k :
  (transformData data).1 !! k =
    if decide (k ∈ unsupportedParams) then None
    else if decide (needsRename data) then
      if decide (k = "max_tokens") then None
      else if decide (k = "max_completion_tokens") then data !! "max_tokens"
      else data !! k
    else data !! k.
Proof.
  unfold transformData. rewrite removeParams_lookup.
  case_decide; [done|]. case_decide as Hr.
  - by destruct (renameMaxTokens_applies data Hr) as [_ ->].
  - by rewrite (renameMaxTokens_skips data Hr).
Qed.

Lemma renamed_fields_supported :
  ("max_tokens" ∉ unsupportedParams) ∧ ("max_completion_tokens" ∉ unsupportedParams).
Proof.
  unfold unsupportedParams.
  split; repeat (apply not_elem_of_cons; split; [done|]); apply not_elem_of_nil.
Qed.

(** A second pass finds nothing to rewrite. *)
Lemma transformData_settled data :
  (transformData (transformData data).1).2 = false.
Proof.
  destruct renamed_fields_supported as [Hold Hnew].
  apply transformData_unmodified. split.
  - intros [Hv Hnone]. rewrite transformData_lookup in Hv, Hnone.
    rewrite decide_False in Hv by done. rewrite decide_False in Hnone by done.
    destruct (decide (needsRename data)) as [Hr|Hr].
    + rewrite decide_True in Hv by done. by destruct Hv.
    + by apply Hr.
  - intros p Hp. rewrite transformData_lookup. by rewrite decide_True.
Qed.

End transform_facts.

(** *** The codec of the samples obeys the laws *)

Lemma dec_str_enc_str (s : string) (rest : bytes) :
  wire.dec_str (wire.enc_str s ++ rest) = Some (s, rest).
Proof.
  induction s as [|c s IH]; [done|].
  cbn [wire.enc_str app wire.dec_str].
  by rewrite IH, Ascii.ascii_of_byte_of_ascii.
Qed.

Lemma dec_entries_step (fuel : nat) (bs : bytes) :
  bs ≠ [] →
  wire.dec_entries (S fuel) bs =
    match wire.dec_str bs with
    | Some (k, bs1) =>
        match wire.dec_str bs1 with
        | Some (v, bs2) =>
            match wire.dec_entries fuel bs2 with
            | Some rest => Some ((k, v) :: rest)
            | None => None
            end
        | None => None
        end
    | None => None
    end.
Proof. by destruct bs. Qed.

Lemma dec_entries_enc_entries (l : list (string * string)) (fuel : nat) :
  (length (wire.enc_entries l) ≤ fuel)%nat →
  wire.dec_entries fuel (wire.enc_entries l) = Some l.
Proof.
  revert fuel. induction l as [|[k v] l IH]; intros fuel Hfuel.
  { by destruct fuel. }
  cbn [wire.enc_entries] in *. rewrite !length_app in Hfuel.
  assert (1 ≤ length (wire.enc_str k))%nat by (destruct k; simpl; lia).
  assert (1 ≤ length (wire.enc_str v))%nat by (destruct v; simpl; lia).
  destruct fuel as [|fuel]; [lia|].
  rewrite dec_entries_step by (destruct k; discriminate).
  rewrite dec_str_enc_str, dec_str_enc_str, IH by lia. done.
Qed.

Lemma wire_Unmarshal_Marshal (data : gmap string string) (newBody : bytes) :
  wire.Marshal data = Some newBody → wire.Unmarshal newBody = Some data.
Proof.
  unfold wire.Marshal, wire.Unmarshal. intros [= <-].
  rewrite dec_entries_enc_entries by done. by rewrite list_to_map_to_list.
Qed.

Lemma wire_Marshal_total (data : gmap string string) :
  is_Some (wire.Marshal data).
Proof. by eexists. Qed.

(** *** The transformer on payloads *)

Section transformer.

Context {Value : Type}.
Variable Unmarshal : bytes → option (gmap string Value).
Variable Marshal : gmap string Value → option bytes.

(** What is assumed of [encoding/json]: a map that [Unmarshal] built
    can be written, and reading what [Marshal] wrote gives the map
    back. *)
Hypothesis Marshal_total : ∀ data, is_Some (Marshal data).
Hypothesis Unmarshal_Marshal :
  ∀ data newBody, Marshal data = Some newBody → Unmarshal newBody = Some data.

Lemma transformRequestBody_parses (body : bytes) (data : gmap string Value) :
  Unmarshal body = Some data →
  Unmarshal (transformRequestBody Unmarshal Marshal body) =
    Some (transformData data).1.
Proof using Marshal_total Unmarshal_Marshal.
  intros Hbody. unfold transformRequestBody. rewrite Hbody.
  destruct (transformData data) as [data' modified] eqn:Htd.
  destruct modified.
  - destruct (Marshal_total data') as [newBody Hm]. rewrite Hm.
    by apply Unmarshal_Marshal.
  - pose proof (transformData_id data) as Hid. rewrite Htd in Hid.
    simpl in Hid. specialize (Hid eq_refl). injection Hid as ->. done.
Qed.

(** C8.  For a payload that parses to the object [data], the output
    of the transformer parses to an object [data'] in which: the
    value of [max_tokens] has moved to [max_completion_tokens] and
    [max_tokens] is gone, when [data] has [max_tokens] and lacks
    [max_completion_tokens]; both fields are as in [data] otherwise;
    no field of the denylist is present; every other field is as in
    [data]. *)
Theorem transformRequestBody_renames_and_strips
    (body : bytes) (data : gmap string Value) :
  Unmarshal body = Some data →
  ∃ data',
    Unmarshal (transformRequestBody Unmarshal Marshal body) = Some data' ∧
    (needsRename data →
       data' !! "max_completion_tokens" = data !! "max_tokens" ∧
       data' !! "max_tokens" = None) ∧
    (¬ needsRename data →
       data' !! "max_completion_tokens" = data !! "max_completion_tokens" ∧
       data' !! "max_tokens" = data !! "max_tokens") ∧
    (∀ param, param ∈ unsupportedParams → data' !! param = None) ∧
    (∀ k, k ∉ unsupportedParams → k ≠ "max_tokens" →
          k ≠ "max_completion_tokens" → data' !! k = data !! k).
Proof using Marshal_total Unmarshal_Marshal.
  intros Hbody. exists (transformData data).1.
  split; [by apply transformRequestBody_parses|].
  destruct (@renamed_fields_supported) as [Hold Hnew].
  split_and!.
  - intros Hr. rewrite !transformData_lookup.
    rewrite !(decide_True (P := needsRename data)) by done.
    rewrite (decide_False (P := "max_completion_tokens" ∈ unsupportedParams)) by done.
    rewrite (decide_False (P := "max_tokens" ∈ unsupportedParams)) by done.
    done.
  - intros Hr. rewrite !transformData_lookup.
    rewrite !(decide_False (P := needsRename data)) by done.
    rewrite (decide_False (P := "max_completion_tokens" ∈ unsupportedParams)) by done.
    rewrite (decide_False (P := "max_tokens" ∈ unsupportedParams)) by done.
    done.
  - intros p Hp. rewrite transformData_lookup. by rewrite decide_True.
  - intros k Hk Hk1 Hk2. rewrite transformData_lookup.
    rewrite decide_False by done. case_decide; [|done].
    by rewrite !decide_False by done.
Qed.

End transformer.

Section transformer_fixpoint.

Context {Value : Type}.
Variable Unmarshal : bytes → option (gmap string Value).
Variable Marshal : gmap string Value → option bytes.

Hypothesis Unmarshal_Marshal :
  ∀ data newBody, Marshal data = Some newBody → Unmarshal newBody = Some data.

(** C10.  A payload that parses to an object with both [max_tokens]
    and [max_completion_tokens] and without any field of the denylist
    is returned as it came, byte for byte: nothing is renamed or
    deleted, so the legacy field stays next to its replacement. *)
Theorem transformRequestBody_keeps_both_fields
    (body : bytes) (data : gmap string Value) :
  Unmarshal body = Some data →
  is_Some (data !! "max_tokens") →
  is_Some (data !! "max_completion_tokens") →
  (∀ param, param ∈ unsupportedParams → data !! param = None) →
  transformRequestBody Unmarshal Marshal body = body ∧
  transformData data = (data, false).
Proof.
  intros Hbody Hold [v Hnew] Hall.
  assert (transformData data = (data, false)) as Htd.
  { apply transformData_id, transformData_unmodified. split; [|done].
    intros [_ Hnone]. congruence. }
  split; [|done]. unfold transformRequestBody. by rewrite Hbody, Htd.
Qed.

(** C9.  The transformer applied to its own output returns that
    output; a payload that does not parse, and a payload that parses
    to an object to which neither rewrite applies, are returned as
    they came, byte for byte. *)
Theorem transformRequestBody_idempotent :
  (∀ body,
     transformRequestBody Unmarshal Marshal
       (transformRequestBody Unmarshal Marshal body) =
     transformRequestBody Unmarshal Marshal body) ∧
  (∀ body, Unmarshal body = None →
     transformRequestBody Unmarshal Marshal body = body) ∧
  (∀ body data, Unmarshal body = Some data →
     ¬ needsRename data →
     (∀ param, param ∈ unsupportedParams → data !! param = None) →
     transformRequestBody Unmarshal Marshal body = body).
Proof using Unmarshal_Marshal.
  assert (Hkeep : ∀ body data, Unmarshal body = Some data →
            (transformData data).2 = false →
            transformRequestBody Unmarshal Marshal body = body).
  { intros body data Hbody Hflag. unfold transformRequestBody.
    rewrite Hbody. destruct (transformData data) as [data' modified].
    simpl in Hflag. by subst modified. }
  split_and!.
  - intros body.
    assert (Hcases :
      transformRequestBody Unmarshal Marshal body = body ∨
      ∃ data newBody, Unmarshal body = Some data ∧
        (transformData data).2 = true ∧
        Marshal (transformData data).1 = Some newBody ∧
        transformRequestBody Unmarshal Marshal body = newBody).
    { unfold transformRequestBody.
      destruct (Unmarshal body) as [data|] eqn:Hbody; [|by left].
      destruct (transformData data) as [data' modified] eqn:Htd.
      destruct modified; [|by left].
      destruct (Marshal data') as [newBody|] eqn:Hm; [|by left].
      right. exists data, newBody. by rewrite Htd. }
    destruct Hcases as [Hsame|(data & newBody & Hbody & _ & Hm & Hout)].
    + by rewrite !Hsame.
    + rewrite Hout. apply (Hkeep newBody (transformData data).1).
      * by apply Unmarshal_Marshal.
      * apply transformData_settled.
  - intros body Hbody. unfold transformRequestBody. by rewrite Hbody.
  - intros body data Hbody Hr Hall. apply (Hkeep body data Hbody).
    by apply transformData_unmodified.
Qed.

End transformer_fixpoint.

Lemma transformRequestBody_renames_and_strips_witness :
  ∃ data',
    wire.Unmarshal (transformRequestBody wire.Unmarshal wire.Marshal wire.legacyBody)
      = Some data' ∧
    data' !! "max_completion_tokens" = Some "256" ∧
    data' !! "max_tokens" = None ∧
    data' !! "enable_thinking" = None ∧
    data' !! "model" = Some "gpt-4".
Proof.
  destruct (transformRequestBody_renames_and_strips wire.Unmarshal wire.Marshal
              wire_Marshal_total wire_Unmarshal_Marshal wire.legacyBody wire.legacy)
    as (data' & Hout & Hren & _ & Hstrip & Hrest).
  { apply wire_Unmarshal_Marshal. reflexivity. }
  exists data'. destruct Hren as [Hnew Hold].
  { split; [by eexists|reflexivity]. }
  split_and!; [exact Hout|by rewrite Hnew|exact Hold| |].
  - apply Hstrip. apply list_elem_of_further, list_elem_of_here.
  - rewrite Hrest; [reflexivity| |discriminate|discriminate].
    unfold unsupportedParams.
    repeat (apply not_elem_of_cons; split; [discriminate|]). apply not_elem_of_nil.
Defined.

Lemma transformRequestBody_idempotent_witness :
  transformRequestBody wire.Unmarshal wire.Marshal
    (transformRequestBody wire.Unmarshal wire.Marshal wire.legacyBody) =
  transformRequestBody wire.Unmarshal wire.Marshal wire.legacyBody ∧
  transformRequestBody wire.Unmarshal wire.Marshal wire.bothBody = wire.bothBody.
Proof.
  destruct (transformRequestBody_idempotent wire.Unmarshal wire.Marshal
              wire_Unmarshal_Marshal) as (Hidem & _ & Hkeep).
  split; [apply Hidem|].
  apply (Hkeep wire.bothBody wire.both).
  - apply wire_Unmarshal_Marshal. reflexivity.
  - intros [_ Hnone]. discriminate Hnone.
  - intros param Hp. unfold unsupportedParams in Hp.
    apply elem_of_cons in Hp as [->|Hp]; [reflexivity|].
    apply elem_of_cons in Hp as [->|Hp]; [reflexivity|].
    by apply elem_of_nil in Hp.
Defined.

Lemma transformRequestBody_keeps_both_fields_witness :
  transformRequestBody wire.Unmarshal wire.Marshal wire.bothBody = wire.bothBody ∧
  transformData wire.both = (wire.both, false).
Proof.
  apply (transformRequestBody_keeps_both_fields wire.Unmarshal wire.Marshal
           wire.bothBody wire.both).
  - apply wire_Unmarshal_Marshal. reflexivity.
  - by eexists.
  - by eexists.
  - intros param Hp. unfold unsupportedParams in Hp.
    apply elem_of_cons in Hp as [->|Hp]; [reflexivity|].
    apply elem_of_cons in Hp as [->|Hp]; [reflexivity|].
    by apply elem_of_nil in Hp.
Defined.

(** * Further properties *)

(** ** Initialisation *)

(** [Init] turns the configuration into pools: a model is known
    afterwards exactly when it is configured or was known before; the
    pool of a configured model starts with the cursor at 0 and lists the
    configured backends in their order, each healthy, never checked and
    with a fail count of zero; the pool of a model that is not
    configured is left as it was. *)
Theorem Init_builds_pools (cfg : config.Config) (lb0 : LoadBalancer) (model : string) :
  (HasModel model (Init cfg lb0) = true ↔
     is_Some (config.Models cfg !! model) ∨ is_Some (lb0 !! model)) ∧
  (is_Some (config.Models cfg !! model) →
     ∃ balancer, Init cfg lb0 !! model = Some balancer ∧
       current balancer = 0 ∧
       length (backends balancer) = length (config.GetBackendsForModel cfg model) ∧
       ∀ i backend, config.GetBackendsForModel cfg model !! i = Some backend →
         deref (Init cfg lb0) (mkRef model i) =
           Some {| Backend := backend; Healthy := true;
                   LastChecked := zeroTime; FailCount := 0 |}) ∧
  (config.Models cfg !! model = None →
     Init cfg lb0 !! model = lb0 !! model ∧
     config.GetBackendsForModel cfg model = []).
Proof.
  unfold config.GetBackendsForModel.
  rewrite HasModel_true, Init_lookup. split_and!.
  - destruct (config.Models cfg !! model) as [mc|].
    + split; [intros _; left; by eexists|by eexists].
    + split; [by right|]. by intros [[? ?]|?].
  - intros [mc Hmc]. rewrite Hmc. exists (newBalancer mc).
    split_and!; [done|done|by cbn; rewrite length_fmap|].
    intros i backend Hi. unfold deref. cbn. rewrite Init_lookup, Hmc. cbn.
    by rewrite list_lookup_fmap, Hi.
  - by intros ->.
Qed.

Lemma Init_builds_pools_witness :
  ∃ balancer, Init sample.cfgTwo ∅ !! "gpt-4" = Some balancer ∧
    current balancer = 0 ∧ length (backends balancer) = 2%nat.
Proof.
  destruct (Init_builds_pools sample.cfgTwo ∅ "gpt-4") as (_ & Hpool & _).
  destruct Hpool as (balancer & Hb & Hc & Hlen & _); [by eexists|].
  exists balancer. split_and!; [exact Hb|exact Hc|exact Hlen].
Defined.

(** ** Round robin *)

Lemma GetNext_healthy_step (lb : LoadBalancer) (model : string)
    (balancer : ModelBalancer) (s : BackendStatus) :
  lb !! model = Some balancer →
  let n := length (backends balancer) in
  backends balancer !! probe (current balancer) n 1 = Some s →
  Healthy s = true →
  GetNext model lb =
    (Some (mkRef model (probe (current balancer) n 1)),
     <[model := bump balancer]> lb).
Proof.
  intros Hlb n Hs Hh. unfold GetNext. rewrite Hlb. fold n.
  assert (n ≠ 0%nat) as Hn.
  { intros Hn. apply lookup_lt_Some in Hs. fold n in Hs. lia. }
  rewrite decide_False by done.
  destruct n as [|n'] eqn:Hn'; [done|].
  cbn [GetNext_loop].
  change (Z.to_nat (current (bump balancer) `mod` Z.of_nat (S n')))
    with (probe (current balancer) (S n') 1).
  cbn [bump backends]. by rewrite Hs, Hh.
Qed.

Lemma Z_mod_to_nat (a : Z) (j n : nat) :
  0 ≤ a → n ≠ 0%nat →
  Z.to_nat ((a + Z.of_nat j) mod Z.of_nat n) =
    ((Z.to_nat (a mod Z.of_nat n) + j) `mod` n)%nat.
Proof.
  intros Ha Hn.
  rewrite <- Zplus_mod_idemp_l.
  pose proof (Z.mod_pos_bound a (Z.of_nat n) ltac:(lia)) as Hb.
  rewrite <- (Z2Nat.id (a mod Z.of_nat n)) at 1 by lia.
  rewrite <- Nat2Z.inj_add, <- Nat2Z.inj_mod. by rewrite Nat2Z.id.
Qed.

(** With every backend of the pool healthy and the cursor away from the
    end of its range, [k] calls of [GetNext] in a row return the
    backends at the places that follow the cursor, one step at a time
    and cyclically, and advance the cursor by [k]; as many calls as the
    pool has backends return every backend exactly once. *)
Theorem GetNext_round_robin (lb : LoadBalancer) (model : string)
    (balancer : ModelBalancer) (k : nat) :
  lb !! model = Some balancer →
  backends balancer ≠ [] →
  (∀ s, s ∈ backends balancer → Healthy s = true) →
  0 ≤ current balancer →
  current balancer + Z.of_nat k < 2 ^ 64 →
  let n := length (backends balancer) in
  let c := current balancer in
  GetNext_times model k lb =
    ((λ j, Some (mkRef model (Z.to_nat ((c + 1 + Z.of_nat j) mod Z.of_nat n))))
       <$> seq 0 k,
     <[model := {| backends := backends balancer; current := c + Z.of_nat k |}]> lb) ∧
  (k = n →
     NoDup (GetNext_times model k lb).1 ∧
     ∀ i, (i < n)%nat → Some (mkRef model i) ∈ (GetNext_times model k lb).1).
Proof.
  intros Hlb Hne Hall Hc Hk n c.
  assert (Hn : n ≠ 0%nat).
  { subst n. destruct (backends balancer); [done|simpl; lia]. }
  assert (Hrun : GetNext_times model k lb =
    ((λ j, Some (mkRef model (Z.to_nat ((c + 1 + Z.of_nat j) mod Z.of_nat n))))
       <$> seq 0 k,
     <[model := {| backends := backends balancer; current := c + Z.of_nat k |}]> lb)).
  { subst c n. clear Hn. revert lb balancer Hlb Hne Hall Hc Hk.
    induction k as [|k IH]; intros lb balancer Hlb Hne Hall Hc Hk.
    { cbn. f_equal. rewrite Z.add_0_r.
      symmetry. apply insert_id. rewrite Hlb. by destruct balancer. }
    set (n := length (backends balancer)).
    assert (Hn : n ≠ 0%nat).
    { subst n. destruct (backends balancer); [done|simpl; lia]. }
    destruct (lookup_lt_is_Some_2 (backends balancer) (probe (current balancer) n 1))
      as [s Hs]; [by apply probe_lt|].
    cbn [GetNext_times].
    rewrite (GetNext_healthy_step lb model balancer s Hlb Hs)
      by (apply Hall; by eapply list_elem_of_lookup_2).
    fold n.
    assert (Hbump : bump balancer =
      {| backends := backends balancer; current := current balancer + 1 |}).
    { unfold bump, wrap_uint64. f_equal. apply Z.mod_small. lia. }
    rewrite Hbump.
    rewrite (IH (<[model := _]> lb)
                {| backends := backends balancer; current := current balancer + 1 |});
      [|by rewrite lookup_insert_eq|done|done|cbn; lia|cbn; lia].
    cbn [backends current]. fold n. rewrite insert_insert_eq.
    f_equal.
    - cbn [seq fmap list_fmap]. f_equal.
      + unfold probe, wrap_uint64.
        rewrite (Z.mod_small (current balancer + Z.of_nat 1)) by lia.
        replace (current balancer + 1 + Z.of_nat 0)
          with (current balancer + Z.of_nat 1) by lia. done.
      + rewrite <- fmap_S_seq, <- list_fmap_compose. apply list_fmap_ext.
        intros i j _. cbn.
        replace (current balancer + 1 + 1 + Z.of_nat j)
          with (current balancer + 1 + Z.of_nat (S j)) by lia. done.
    - replace (current balancer + 1 + Z.of_nat k)
        with (current balancer + Z.of_nat (S k)) by lia. done. }
  split; [done|]. intros ->. rewrite Hrun. cbn [fst].
  set (start := Z.to_nat ((c + 1) mod Z.of_nat n)).
  assert (Hstart : (start < n)%nat) by by apply start_lt.
  assert (Heq : (λ j, Some (mkRef model (Z.to_nat ((c + 1 + Z.of_nat j) mod Z.of_nat n))))
                  <$> seq 0 n =
                Some <$> ((λ i, mkRef model ((start + i) `mod` n)%nat) <$> seq 0 n)).
  { rewrite <- list_fmap_compose. apply list_fmap_ext. intros i j _. cbn.
    by rewrite Z_mod_to_nat by lia. }
  rewrite Heq. split.
  - apply NoDup_fmap_2; [apply _|]. by apply rotation_NoDup.
  - intros i Hi. apply list_elem_of_fmap_2.
    destruct (rotate_surj start i n) as (j & Hj & Hij); [done..|].
    apply list_elem_of_fmap. exists j. split; [by rewrite Hij|].
    apply elem_of_seq. lia.
Qed.

Lemma GetNext_round_robin_witness :
  (GetNext_times "gpt-4" 3 sample_more.lbThree).1 =
    [Some (mkRef "gpt-4" 1); Some (mkRef "gpt-4" 2); Some (mkRef "gpt-4" 0)] ∧
  NoDup (GetNext_times "gpt-4" 3 sample_more.lbThree).1.
Proof.
  destruct (GetNext_round_robin sample_more.lbThree "gpt-4" sample_more.poolThree 3)
    as [Hrun Hall]; [reflexivity|discriminate| |cbn; lia|cbn; lia|].
  { intros s Hs. cbn in Hs.
    repeat (apply elem_of_cons in Hs as [->|Hs]; [reflexivity|]).
    by apply elem_of_nil in Hs. }
  split; [by rewrite Hrun|]. exact (proj1 (Hall eq_refl)).
Defined.

(** ** What the operations leave alone *)

Lemma shape_lookup (lb : LoadBalancer) (model : string) :
  shape lb !! model = (λ b, Backend <$> backends b) <$> lb !! model.
Proof. unfold shape. by rewrite lookup_fmap. Qed.

Lemma store_lookup (p : BackendRef) (f : BackendStatus → BackendStatus)
    (lb : LoadBalancer) (model : string) :
  store p f lb !! model =
    (λ b, if decide (ref_model p = model)
          then update_backends (alter f (ref_index p)) b else b) <$> lb !! model.
Proof.
  unfold store. destruct (decide (ref_model p = model)) as [Heq|Hne].
  - subst model. rewrite lookup_alter_eq. by destruct (lb !! ref_model p).
  - rewrite lookup_alter_ne by done. by destruct (lb !! model).
Qed.

Lemma descriptors_alter (f : BackendStatus → BackendStatus) (i : nat)
    (l : list BackendStatus) :
  (∀ s, Backend (f s) = Backend s) →
  Backend <$> alter f i l = Backend <$> l.
Proof.
  intros Hf. apply list_eq. intros j. rewrite !list_lookup_fmap.
  destruct (decide (i = j)) as [->|Hne].
  - rewrite list_lookup_alter_eq. destruct (l !! j); cbn; [|done]. by rewrite Hf.
  - by rewrite list_lookup_alter_ne.
Qed.

Lemma shape_store (p : BackendRef) (f : BackendStatus → BackendStatus)
    (lb : LoadBalancer) :
  (∀ s, Backend (f s) = Backend s) → shape (store p f lb) = shape lb.
Proof.
  intros Hf. apply map_eq. intros m. rewrite !shape_lookup, store_lookup.
  destruct (lb !! m) as [b|]; cbn; [|done]. case_decide; [|done].
  cbn. by rewrite descriptors_alter.
Qed.

Lemma store_current (p : BackendRef) (f : BackendStatus → BackendStatus)
    (lb : LoadBalancer) (model : string) :
  current <$> store p f lb !! model = current <$> lb !! model.
Proof.
  rewrite store_lookup. destruct (lb !! model); cbn; [|done]. by case_decide.
Qed.

Lemma GetNext_lookup (model m : string) (lb : LoadBalancer) (b : ModelBalancer) :
  lb !! m = Some b →
  ∃ b', (GetNext model lb).2 !! m = Some b' ∧ backends b' = backends b ∧
        (current b' ≠ current b → model = m).
Proof.
  intros Hb. unfold GetNext.
  destruct (lb !! model) as [balancer|] eqn:Hlb; [|by exists b].
  case_decide as Hn; [by exists b|].
  destruct (GetNext_loop _ _ balancer) as [found balancer'] eqn:Hloop.
  apply GetNext_loop_spec in Hloop as [Hbk _]; [|done..].
  assert (∃ b', <[model:=balancer']> lb !! m = Some b' ∧
                backends b' = backends b ∧ (current b' ≠ current b → model = m))
    as Hgoal.
  { destruct (decide (model = m)) as [->|Hne].
    - rewrite lookup_insert_eq. exists balancer'.
      rewrite Hlb in Hb. injection Hb as <-. by split_and!.
    - rewrite lookup_insert_ne by done. exists b. by split_and!. }
  by destruct found.
Qed.

(** Pool membership, pool order and the backend descriptors are fixed
    once the server runs: no selection, health update or sweep changes
    them; and the cursor of a model moves under [GetNext] for that
    model only. *)
Theorem run_op_keeps_configuration (op : Op) (lb : LoadBalancer) :
  shape (run_op op lb) = shape lb ∧
  ∀ model b, lb !! model = Some b →
    ∃ b', run_op op lb !! model = Some b' ∧
          length (backends b') = length (backends b) ∧
          (current b' ≠ current b → op = OpGetNext model).
Proof.
  assert (Hmark : ∀ p f, (∀ s, Backend (f s) = Backend s) →
    shape (store p f lb) = shape lb ∧
    ∀ model b, lb !! model = Some b →
      ∃ b', store p f lb !! model = Some b' ∧
            length (backends b') = length (backends b) ∧
            current b' = current b).
  { intros p f Hf. split; [by apply shape_store|].
    intros model b Hb. rewrite store_lookup, Hb. cbn. eexists. split; [done|].
    case_decide; [|done]. cbn. by rewrite length_alter. }
  destruct op as [m|m|m p t|m p t|clock]; cbn.
  - split.
    + apply map_eq. intros model. rewrite !shape_lookup.
      destruct (lb !! model) as [b|] eqn:Hb.
      * destruct (GetNext_lookup m model lb b Hb) as (b' & -> & Hbk & _).
        cbn. by rewrite Hbk.
      * assert ((GetNext m lb).2 !! model = None) as ->; [|done].
        unfold GetNext. destruct (lb !! m) as [balancer|] eqn:Hm; [|done].
        case_decide; [done|].
        destruct (GetNext_loop _ _ balancer) as [found b'].
        assert (m ≠ model) by congruence.
        destruct found; cbn; by rewrite lookup_insert_ne.
    + intros model b Hb.
      destruct (GetNext_lookup m model lb b Hb) as (b' & Hb' & Hbk & Hcur).
      exists b'. split_and!; [done|by rewrite Hbk|]. intros Hne. by rewrite Hcur.
  - rewrite deref_GetAllBackends. split; [done|]. intros model b Hb. by exists b.
  - unfold MarkUnhealthy. destruct (lb !! m).
    + destruct (Hmark p (markUnhealthy t)) as [Hs Hc]; [done|]. split; [done|].
      intros model b Hb. destruct (Hc model b Hb) as (b' & ? & ? & ?).
      exists b'. split_and!; [done..|]. congruence.
    + split; [done|]. intros model b Hb. by exists b.
  - unfold MarkHealthy. destruct (lb !! m).
    + destruct (Hmark p (markHealthy t)) as [Hs Hc]; [done|]. split; [done|].
      intros model b Hb. destruct (Hc model b Hb) as (b' & ? & ? & ?).
      exists b'. split_and!; [done..|]. congruence.
    + split; [done|]. intros model b Hb. by exists b.
  - split.
    + apply map_eq. intros model. rewrite !shape_lookup.
      unfold healthCheckTick. rewrite map_lookup_imap.
      destruct (lb !! model) as [b|]; cbn; [|done]. f_equal.
      apply list_eq. intros j. rewrite !list_lookup_fmap, list_lookup_imap.
      destruct (backends b !! j) as [s|]; cbn; [|done].
      unfold recover. by case_match.
    + intros model b Hb. unfold healthCheckTick. rewrite map_lookup_imap, Hb. cbn.
      eexists. split; [done|]. cbn. by rewrite length_imap.
Qed.

Lemma run_op_keeps_configuration_witness :
  shape (run_op (OpMarkUnhealthy "gpt-4" (mkRef "gpt-4" 1) 7) sample_more.lbThree)
    = shape sample_more.lbThree ∧
  ∃ b', run_op (OpGetNext "gpt-4") sample_more.lbThree !! "gpt-4" = Some b' ∧
        length (backends b') = 3%nat.
Proof.
  split.
  - exact (proj1 (run_op_keeps_configuration _ _)).
  - destruct (proj2 (run_op_keeps_configuration (OpGetNext "gpt-4") sample_more.lbThree)
                "gpt-4" sample_more.poolThree eq_refl) as (b' & Hb' & Hlen & _).
    by exists b'.
Defined.

(** ** Failure and recovery *)

(** A backend marked unhealthy at instant [t] and then swept while the
    clock reads [now] is healthy again exactly when [now - t] is more
    than 30 seconds; the sweep keeps the time of the failure and the
    fail count the failure left. *)
Theorem MarkUnhealthy_then_tick (lb : LoadBalancer) (model : string)
    (p : BackendRef) (t : time.Time) (clock : string → nat → time.Time)
    (s : BackendStatus) :
  is_Some (lb !! model) →
  deref lb p = Some s →
  deref (healthCheckTick clock (MarkUnhealthy model p t lb)) p =
    Some {| Backend := Backend s;
            Healthy := bool_decide (30 * time.Second <
                                    clock (ref_model p) (ref_index p) - t);
            LastChecked := t;
            FailCount := wrap_int32 (FailCount s + 1) |}.
Proof.
  intros [b Hb] Hs. rewrite deref_healthCheckTick.
  unfold MarkUnhealthy. rewrite Hb, deref_store, decide_True, Hs by done. cbn.
  f_equal. unfold recover. cbn.
  destruct (defaultRecoveryTimeout <? _) eqn:Hcmp.
  - apply Since_exceeds in Hcmp. by rewrite bool_decide_eq_true_2.
  - rewrite bool_decide_eq_false_2; [done|].
    intros Hlt. apply Since_exceeds in Hlt. congruence.
Qed.

Lemma MarkUnhealthy_then_tick_witness :
  Healthy <$> deref (healthCheckTick sample.clockLate
                       (MarkUnhealthy "gpt-4" (mkRef "gpt-4" 0) 5 sample.lbTwo))
                    (mkRef "gpt-4" 0) = Some true.
Proof.
  rewrite (MarkUnhealthy_then_tick sample.lbTwo "gpt-4" (mkRef "gpt-4" 0) 5
             sample.clockLate (sample.up sample.backendA));
    [reflexivity|by eexists|reflexivity].
Defined.

Lemma wrap_int32_small (z : Z) : - 2 ^ 31 ≤ z < 2 ^ 31 → wrap_int32 z = z.
Proof. intros Hz. unfold wrap_int32. rewrite Z.mod_small by lia. lia. Qed.

(** The fail counter counts the failures since the last success: after
    [MarkHealthy] and then [MarkUnhealthy] at the instants [ts] (fewer
    than [2^31] of them) the counter holds their number, the backend is
    unhealthy as soon as there is one, and [LastChecked] is the instant
    of the last update. *)
Theorem FailCount_counts_failures (lb : LoadBalancer) (model : string)
    (p : BackendRef) (t0 : time.Time) (ts : list time.Time) (s : BackendStatus) :
  is_Some (lb !! model) →
  deref lb p = Some s →
  Z.of_nat (length ts) < 2 ^ 31 →
  deref (foldl (λ lb t, MarkUnhealthy model p t lb) (MarkHealthy model p t0 lb) ts) p =
    Some {| Backend := Backend s;
            Healthy := bool_decide (ts = []);
            LastChecked := default t0 (last ts);
            FailCount := Z.of_nat (length ts) |}.
Proof.
  intros Hm Hs Hlen.
  induction ts as [|t ts IH] using rev_ind.
  { cbn. destruct Hm as [b Hb]. unfold MarkHealthy.
    by rewrite Hb, deref_store, decide_True, Hs. }
  rewrite foldl_app. cbn [foldl]. rewrite length_app in *. cbn [length] in *.
  assert (is_Some (foldl (λ lb t, MarkUnhealthy model p t lb)
                         (MarkHealthy model p t0 lb) ts !! model)) as [b Hb].
  { clear IH Hlen. induction ts as [|t' ts IH] using rev_ind.
    - by apply MarkHealthy_is_Some.
    - rewrite foldl_app. cbn. by apply MarkUnhealthy_is_Some. }
  unfold MarkUnhealthy at 1. rewrite Hb, deref_store, decide_True by done.
  rewrite IH by lia. cbn. unfold markUnhealthy. cbn.
  rewrite last_snoc. cbn. rewrite wrap_int32_small by lia.
  rewrite bool_decide_eq_false_2 by by destruct ts.
  do 2 f_equal. lia.
Qed.

Lemma FailCount_counts_failures_witness :
  FailCount <$> deref (foldl (λ lb t, MarkUnhealthy "gpt-4" (mkRef "gpt-4" 0) t lb)
                         (MarkHealthy "gpt-4" (mkRef "gpt-4" 0) 1 sample.lbDown)
                         [2; 3; 4])
                      (mkRef "gpt-4" 0) = Some 3.
Proof.
  rewrite (FailCount_counts_failures sample.lbDown "gpt-4" (mkRef "gpt-4" 0) 1
             [2; 3; 4] (sample.down sample.backendA 5));
    [reflexivity|by eexists|reflexivity|cbn; lia].
Defined.

(** ** More on one inbound request *)

Section proxy_more.

Variable cfg : config.Config.
Variable env : nat → Attempt.
Variable model : string.
Variable body : bytes.
Variable apiType : string.

Lemma replay_shape (log : list AttemptLog) (lb : LoadBalancer) :
  shape (replay model log lb) = shape lb.
Proof.
  revert lb. induction log as [|l log IH]; intros lb; [done|].
  rewrite replay_cons, IH. unfold apply_mark, MarkUnhealthy, MarkHealthy.
  destruct (at_mark l); [| |done]; destruct (lb !! model); try done;
    by apply shape_store.
Qed.

Lemma replay_current (log : list AttemptLog) (lb : LoadBalancer) (m : string) :
  current <$> replay model log lb !! m = current <$> lb !! m.
Proof.
  revert lb. induction log as [|l log IH]; intros lb; [done|].
  rewrite replay_cons, IH. unfold apply_mark, MarkUnhealthy, MarkHealthy.
  destruct (at_mark l); [| |done]; destruct (lb !! model); try done;
    by apply store_current.
Qed.

Lemma GetAllBackends_ext (lb lb' : LoadBalancer) :
  shape lb' = shape lb →
  current <$> lb' !! model = current <$> lb !! model →
  (GetAllBackends model lb').1 = (GetAllBackends model lb).1.
Proof.
  intros Hshape Hcur.
  assert (shape lb' !! model = shape lb !! model) as Hs by by rewrite Hshape.
  rewrite !shape_lookup in Hs. unfold GetAllBackends.
  destruct (lb' !! model) as [b'|], (lb !! model) as [b|]; cbn in *; try done.
  injection Hs as Hs. injection Hcur as Hcur.
  assert (length (backends b') = length (backends b)) as Hlen.
  { by rewrite <- (length_fmap Backend), Hs, length_fmap. }
  rewrite Hlen, Hcur. by case_decide.
Qed.

(** A request changes nothing but health fields, and those only of the
    backends it attempted: pools, their order, the descriptors and every
    cursor are as before, so the next request for the model gets the
    same failover sequence. *)
Theorem proxyWithModel_keeps_configuration
    (lb lb' : LoadBalancer) (log : list AttemptLog) (out : Outcome) :
  proxyWithModel cfg env model body apiType lb = (lb', log, out) →
  shape lb' = shape lb ∧
  (∀ m, current <$> lb' !! m = current <$> lb !! m) ∧
  (∀ p, p ∉ at_backend <$> log → deref lb' p = deref lb p) ∧
  (GetAllBackends model lb').1 = (GetAllBackends model lb).1.
Proof.
  intros Hrun.
  destruct (proxyWithModel_marks _ _ _ _ _ _ _ _ _ Hrun) as [-> _].
  assert (Hcur : ∀ m, current <$> replay model log lb !! m = current <$> lb !! m)
    by (intros m; apply replay_current).
  split_and!; [apply replay_shape|done| |].
  - intros p Hp. destruct (lb !! model) as [b|] eqn:Hb.
    + apply replay_deref_notin; [by rewrite Hb|done].
    + rewrite proxyWithModel_no_backends in Hrun by (intros; congruence).
      by injection Hrun as _ <- _.
  - apply GetAllBackends_ext; [apply replay_shape|apply Hcur].
Qed.

Section run_more.

Variables (lb lb' : LoadBalancer) (balancer : ModelBalancer).
Variables (log : list AttemptLog) (out : Outcome).
Hypothesis Hlb : lb !! model = Some balancer.
Hypothesis Hrun :
  proxyWithModel cfg env model body apiType lb = (lb', log, out).

(** How a request ends when none of its attempts was answered: with the
    bound reached, or with the inbound context found done. *)
Lemma proxyWithModel_end :
  backends balancer ≠ [] →
  Forall failed log →
  let bound := Z.min (config.MaxAttempts (config.Retry cfg))
                     (Z.of_nat (length (backends balancer))) in
  (Z.of_nat (length log) = Z.max 0 bound ∧
   out = match lastErr_after None log with
         | Some err => JSON 503 "all backends failed" (Some (Error err))
         | None => Panicked
         end) ∨
  (Z.of_nat (length log) < bound ∧ ctxDone (env (length log)) = true ∧
   out = Cancelled).
Proof using Hlb Hrun.
  intros Hne Hall bound.
  assert (Hn : length (backends balancer) ≠ 0%nat).
  { destruct (backends balancer); [done|simpl; lia]. }
  edestruct proxyWithModel_loop as (Hloop & Hlen & _ & Hvalid);
    [exact Hlb|exact Hrun|exact Hn|].
  rewrite attemptBound_min, Hlen in Hloop. fold bound in Hloop.
  edestruct retryLoop_end as [[Hfull Hout]|[(Hlt & Hdone & Hout)|(Hlt & _ & Hbad)]];
    [exact Hloop|exact Hall|..].
  - left. split; [lia|done].
  - right. split_and!; [lia|done..].
  - exfalso. rewrite Hlen in Hbad. cbn in Hbad.
    rewrite Nat.mod_small in Hbad by lia.
    destruct (lookup_lt_is_Some_2 (failoverSequence model balancer) (length log))
      as [p Hp]; [lia|].
    destruct Hbad as [Hnone|(q & Hq & Hderef)]; [congruence|].
    rewrite Hp in Hq. injection Hq as <-.
    rewrite (proxyWithModel_replay _ _ _ _ _ _ _ _ _ _ Hlb Hrun) in Hderef.
    assert (is_Some (deref (replay model log lb) p)) as [? ?]; [|congruence].
    apply replay_deref_is_Some; [by rewrite Hlb|].
    apply Hvalid. by eapply list_elem_of_lookup_2.
Qed.

Lemma records_fails (a : Attempt) (l : AttemptLog) :
  records a l → fails a → failed l.
Proof.
  intros [_ Hrec] (_ & Hf). unfold failed.
  destruct (newRequestErr a); [destruct Hrec as [-> _]; by eexists|].
  destruct Hf as [[? ?]|Hf]; [done|].
  destruct (doResult a) as [err|resp]; [destruct Hrec as [-> _]; by eexists|].
  destruct Hf as [[? ?]|(resp' & [= <-] & Hge)]; [done|].
  destruct (500 <=? StatusCode resp) eqn:Hc; [|lia].
  destruct Hrec as [-> _]. by eexists.
Qed.

(** As long as the outside world makes the attempts fail, the loop
    makes them: the log has an entry for every iteration below [i]
    when those fail and [i] is within the bound. *)
Lemma proxyWithModel_reaches (i : nat) :
  Z.of_nat i ≤ Z.min (config.MaxAttempts (config.Retry cfg))
                     (Z.of_nat (length (backends balancer))) →
  (∀ j, (j < i)%nat → fails (env j)) →
  (i ≤ length log)%nat.
Proof using Hlb Hrun.
  intros Hbound Hfails.
  destruct (decide (i ≤ length log)%nat) as [|Hshort]; [done|exfalso].
  assert (Hne : backends balancer ≠ []).
  { intros Heq. rewrite Heq in Hbound. cbn in Hbound. lia. }
  assert (Hall : Forall failed log).
  { apply Forall_lookup. intros j l Hj. apply lookup_lt_Some in Hj as Hjlt.
    edestruct proxyWithModel_entry as (Hrec & _); [exact Hlb|exact Hrun|exact Hj|].
    eapply records_fails; [done|]. apply Hfails. lia. }
  destruct (proxyWithModel_end Hne Hall) as [[Hfull _]|(_ & Hdone & _)].
  - lia.
  - destruct (Hfails (length log)) as [Hctx _]; [lia|]. congruence.
Qed.

End run_more.


(** Cancellation between attempts: when the iterations before [i] fail
    and the inbound context is done at the poll of iteration [i], within
    the bound, the handler returns without a response after exactly [i]
    attempts; the health updates of those attempts stay. *)
Theorem proxyWithModel_cancelled_at_poll
    (lb lb' : LoadBalancer) (balancer : ModelBalancer)
    (log : list AttemptLog) (out : Outcome) (i : nat) :
  lb !! model = Some balancer →
  proxyWithModel cfg env model body apiType lb = (lb', log, out) →
  Z.of_nat i < Z.min (config.MaxAttempts (config.Retry cfg))
                     (Z.of_nat (length (backends balancer))) →
  (∀ j, (j < i)%nat → fails (env j)) →
  ctxDone (env i) = true →
  length log = i ∧ out = Cancelled ∧ Forall failed log ∧
  lb' = replay model log lb.
Proof.
  intros Hlb Hrun Hbound Hfails Hctx.
  pose proof (proxyWithModel_reaches _ _ _ _ _ Hlb Hrun i ltac:(lia) Hfails) as Hi.
  assert (length log = i) as Hlog.
  { destruct (decide (length log = i)) as [|Hne]; [done|exfalso].
    destruct (lookup_lt_is_Some_2 log i) as [l Hl]; [lia|].
    edestruct proxyWithModel_entry as ([Hc _] & _); [exact Hlb|exact Hrun|exact Hl|].
    congruence. }
  assert (Hne : backends balancer ≠ []).
  { intros Heq. rewrite Heq in Hbound. cbn in Hbound. lia. }
  assert (Hall : Forall failed log).
  { apply Forall_lookup. intros j l Hj. apply lookup_lt_Some in Hj as Hjlt.
    edestruct proxyWithModel_entry as (Hrec & _); [exact Hlb|exact Hrun|exact Hj|].
    eapply records_fails; [done|]. apply Hfails. lia. }
  split_and!; [done| |done|by eapply proxyWithModel_replay].
  destruct (proxyWithModel_end _ _ _ _ _ Hlb Hrun Hne Hall)
    as [[Hfull _]|(_ & _ & Hout)]; [lia|done].
Qed.

(** A failure that is not a response: when the outbound request cannot
    be built the backend is left as it was; when the call fails the
    backend is marked unhealthy (health flag down, fail counter
    incremented, time of the check set to the clock reading of the
    attempt) and is so when the handler returns; and after any failed
    attempt that is followed by another, the next attempt goes to
    another backend. *)
Theorem proxyWithModel_call_failure
    (lb lb' : LoadBalancer) (balancer : ModelBalancer)
    (log : list AttemptLog) (out : Outcome) (i : nat) (l : AttemptLog) :
  lb !! model = Some balancer →
  proxyWithModel cfg env model body apiType lb = (lb', log, out) →
  log !! i = Some l →
  (∀ err, newRequestErr (env i) = Some err →
     at_result l = RequestNotBuilt err ∧
     deref lb' (at_backend l) = deref lb (at_backend l)) ∧
  (∀ err, newRequestErr (env i) = None → doResult (env i) = inl err →
     at_result l = CallFailed err ∧
     ∃ s, deref lb (at_backend l) = Some s ∧
          deref lb' (at_backend l) =
            Some {| Backend := Backend s; Healthy := false;
                    LastChecked := now (env i);
                    FailCount := wrap_int32 (FailCount s + 1) |}) ∧
  (failed l →
     Z.of_nat (S i) < Z.min (config.MaxAttempts (config.Retry cfg))
                            (Z.of_nat (length (backends balancer))) →
     ctxDone (env (S i)) = false →
     ∃ l', log !! S i = Some l' ∧ at_backend l' ≠ at_backend l).
Proof.
  intros Hlb Hrun Hl.
  edestruct proxyWithModel_entry as ([_ Hrec] & Hbs & _ & _);
    [exact Hlb|exact Hrun|exact Hl|].
  edestruct proxyWithModel_final_status as [Hfinal [s Hs]];
    [exact Hlb|exact Hrun|exact Hl|].
  rewrite Hs in Hfinal. cbn in Hfinal.
  split_and!.
  - intros err Hnr. rewrite Hnr in Hrec. destruct Hrec as [Hres Hmark].
    rewrite Hmark in Hfinal. by rewrite Hs.
  - intros err Hnr Hdo. rewrite Hnr, Hdo in Hrec. destruct Hrec as [Hres Hmark].
    rewrite Hmark in Hfinal. split; [done|]. by exists s.
  - intros Hfail Hbound Hctx.
    edestruct proxyWithModel_continues as [l' Hl'];
      [exact Hlb|exact Hrun|exact Hl|exact Hfail|exact Hbound|exact Hctx|].
    exists l'. split; [done|].
    edestruct proxyWithModel_entry as (_ & Hbs' & _);
      [exact Hlb|exact Hrun|exact Hl'|].
    intros Heq. rewrite Heq in Hbs'.
    assert (NoDup (failoverSequence model balancer)) as Hnd.
    { edestruct proxyWithModel_loop as (_ & _ & Hnd & _);
        [exact Hlb|exact Hrun| |exact Hnd].
      intros Hz. rewrite Hz in Hbound. cbn in Hbound. lia. }
    pose proof (NoDup_lookup _ _ _ _ Hnd Hbs Hbs'). lia.
Qed.

End proxy_more.

Lemma proxyWithModel_keeps_configuration_witness :
  let run := proxyWithModel sample.cfgTwo sample.envFailover "gpt-4" []
               "chat/completions" sample.lbTwo in
  shape run.1.1 = shape sample.lbTwo ∧
  (GetAllBackends "gpt-4" run.1.1).1 = (GetAllBackends "gpt-4" sample.lbTwo).1.
Proof.
  intros run.
  destruct (proxyWithModel sample.cfgTwo sample.envFailover "gpt-4" []
              "chat/completions" sample.lbTwo) as [[lb' log] out] eqn:Hrun.
  destruct (proxyWithModel_keeps_configuration
              sample.cfgTwo sample.envFailover "gpt-4" [] "chat/completions"
              sample.lbTwo lb' log out Hrun) as (Hs & _ & _ & Hall).
  subst run. split; [exact Hs|exact Hall].
Defined.


Lemma proxyWithModel_cancelled_at_poll_witness :
  ∃ lb' log,
    proxyWithModel sample.cfgTwo sample_more.envFailThenGone "gpt-4" []
      "chat/completions" sample.lbTwo = (lb', log, Cancelled) ∧
    length log = 1%nat.
Proof.
  destruct (proxyWithModel sample.cfgTwo sample_more.envFailThenGone "gpt-4" []
              "chat/completions" sample.lbTwo) as [[lb' log] out] eqn:Hrun.
  destruct (proxyWithModel_cancelled_at_poll sample.cfgTwo sample_more.envFailThenGone
              "gpt-4" [] "chat/completions" sample.lbTwo lb' sample.poolTwo log out 1)
    as (Hlen & -> & _); [reflexivity|exact Hrun|cbn; lia| |reflexivity|].
  - intros j Hj. assert (j = 0%nat) as -> by lia.
    split; [reflexivity|]. right; left. by eexists.
  - exists lb', log. split; [reflexivity|exact Hlen].
Defined.

Lemma proxyWithModel_call_failure_witness :
  ∃ lb' log out l,
    proxyWithModel sample.cfgTwo sample.envAllFail "gpt-4" []
      "chat/completions" sample.lbTwo = (lb', log, out) ∧
    log !! 1%nat = Some l ∧
    at_result l = CallFailed sample.refused ∧
    Healthy <$> deref lb' (at_backend l) = Some false.
Proof.
  destruct (proxyWithModel sample.cfgTwo sample.envAllFail "gpt-4" []
              "chat/completions" sample.lbTwo) as [[lb' log] out] eqn:Hrun.
  assert (Hl : ∃ l, log !! 1%nat = Some l).
  { vm_compute in Hrun. injection Hrun as _ <- _. eexists. reflexivity. }
  destruct Hl as [l Hl].
  destruct (proxyWithModel_call_failure sample.cfgTwo sample.envAllFail "gpt-4" []
              "chat/completions" sample.lbTwo lb' sample.poolTwo log out 1 l)
    as (_ & Hcall & _); [reflexivity|exact Hrun|exact Hl|].
  destruct (Hcall sample.refused eq_refl eq_refl) as [Hres (s & _ & Hs)].
  exists lb', log, out, l.
  split_and!; [reflexivity|exact Hl|exact Hres|rewrite Hs; reflexivity].
Defined.

(** ** The target address *)

Lemma TrimSuffix_slash_app (s : string) :
  TrimSuffix_slash (s +:+ "/") = s.
Proof.
  induction s as [|c s IH]; [done|].
  destruct s as [|d s]; [done|].
  change (TrimSuffix_slash (String c (String d s) +:+ "/"))
    with (String c (TrimSuffix_slash (String d s +:+ "/"))).
  by rewrite IH.
Qed.

(** A trailing slash of the configured endpoint does not show in the
    target address: the endpoints [e/] and [e] (when [e] itself does
    not end with a slash) lead to the same address.  Only one slash is
    removed. *)
Theorem targetURL_trailing_slash (e key deployment version apiType : string) :
  let apiVersion := if decide (version = "") then "2024-02-01" else version in
  targetURL (config.mkBackend (e +:+ "/") key deployment version) apiType =
    (if decide (apiType = "responses")
     then e +:+ "/openai/responses?api-version=" +:+ apiVersion
     else e +:+ "/openai/deployments/" +:+ deployment +:+ "/" +:+ apiType
            +:+ "?api-version=" +:+ apiVersion) ∧
  (TrimSuffix_slash e = e →
   targetURL (config.mkBackend (e +:+ "/") key deployment version) apiType =
   targetURL (config.mkBackend e key deployment version) apiType).
Proof.
  unfold targetURL. cbn [config.Endpoint config.APIVersion config.Deployment].
  rewrite TrimSuffix_slash_app. split; [done|]. by intros ->.
Qed.

Lemma targetURL_trailing_slash_witness :
  targetURL (config.mkBackend "https://b.example/" "key-b" "gpt-4" "") "embeddings" =
  targetURL sample.backendB "embeddings".
Proof.
  exact (proj2 (targetURL_trailing_slash "https://b.example" "key-b" "gpt-4" ""
                  "embeddings") eq_refl).
Defined.

(** ** The entry of a request *)

Section request_facts.

Context {Value : Type}.
Variable Unmarshal : bytes → option (gmap string Value).
Variable Marshal : gmap string Value → option bytes.
Variable UnmarshalModel : bytes → option string.
Variable cfg : config.Config.
Variable env : nat → Attempt.

(** The retry loop answers for itself with 503 only. *)
Lemma retryLoop_JSON model body apiType bs rem i lb lastErr lb' log out code err detail :
  retryLoop env model body apiType bs rem i lb lastErr = (lb', log, out) →
  out = JSON code err detail → code = 503.
Proof.
  revert i lb lastErr lb' log out.
  induction rem as [|rem IH]; intros i lb lastErr lb' log out; cbn [retryLoop].
  { destruct lastErr; intros [= <- <- <-]; [by intros [= <- _ _]|done]. }
  destruct (attempt_cases env model body apiType bs i lb)
    as [[_ ->]|[(_ & -> & _)|(p & s & _ & _ & _ & H)]];
    [by intros [= <- <- <-]..|].
  cbn in H.
  destruct (newRequestErr (env i)); [|destruct (doResult (env i)) as [e|resp];
    [|destruct H as [[_ H]|[_ H]]]]; rewrite H.
  4: { intros [= <- <- <-]. by case_match. }
  all: destruct (retryLoop _ _ _ _ bs rem (S i) _ _) as [[lb2 logs] out2] eqn:Hrec;
    intros [= <- <- <-]; by eapply IH.
Qed.

Lemma proxyWithModel_JSON model body apiType lb lb' log out code err detail :
  proxyWithModel cfg env model body apiType lb = (lb', log, out) →
  out = JSON code err detail → code = 503.
Proof.
  unfold proxyWithModel. destruct (GetAllBackends model lb) as [r lb1].
  case_decide; [by intros [= <- <- <-] [= <- _ _]|].
  apply retryLoop_JSON.
Qed.

Lemma readBody_small (r : RequestBody) :
  Z.of_nat (length (sent r)) < maxBodySize →
  readBody r = if broken r then None else Some (sent r).
Proof.
  intros Hsmall. unfold readBody.
  by destruct (Z.ltb_spec (Z.of_nat (length (sent r))) maxBodySize); [|lia].
Qed.

Lemma readBody_big (r : RequestBody) :
  maxBodySize ≤ Z.of_nat (length (sent r)) →
  readBody r =
    if (Z.of_nat (length (sent r)) =? maxBodySize) && broken r && brokenWithData r
    then None else Some (take (Z.to_nat maxBodySize) (sent r)).
Proof.
  intros Hbig. unfold readBody.
  by destruct (Z.ltb_spec (Z.of_nat (length (sent r))) maxBodySize); [lia|].
Qed.

Lemma readBody_length (r : RequestBody) (body : bytes) :
  readBody r = Some body →
  (maxBodySize ≤ Z.of_nat (length body) ↔ maxBodySize ≤ Z.of_nat (length (sent r))) ∧
  (Z.of_nat (length (sent r)) < maxBodySize → body = sent r ∧ broken r = false) ∧
  (Z.of_nat (length (sent r)) = maxBodySize →
     broken r && brokenWithData r = false).
Proof.
  destruct (Z.lt_ge_cases (Z.of_nat (length (sent r))) maxBodySize) as [Hc|Hc].
  - rewrite readBody_small by done.
    destruct (broken r); [done|]. intros [= <-]. split_and!; [lia|done|lia].
  - rewrite readBody_big by done.
    destruct (Z.eqb_spec (Z.of_nat (length (sent r))) maxBodySize) as [Heq|Hne];
      cbn [andb].
    + destruct (broken r && brokenWithData r); [done|]. intros [= <-].
      rewrite length_take. unfold maxBodySize in *.
      split_and!; [lia|intros; lia|done].
    + intros [= <-]. rewrite length_take. unfold maxBodySize in *.
      split_and!; [lia|intros; lia|intros; lia].
Qed.

Lemma handleOpenAIRequest_too_large (apiType : string) (r : RequestBody)
    (lb : LoadBalancer) (body : bytes) :
  readBody r = Some body →
  maxBodySize ≤ Z.of_nat (length (sent r)) →
  handleOpenAIRequest Unmarshal Marshal UnmarshalModel cfg env apiType r lb =
    (lb, [], JSON 413 "request body too large" None).
Proof.
  intros Hread Hbig. unfold handleOpenAIRequest. rewrite Hread.
  destruct (readBody_length r body Hread) as (Hlen & _).
  by destruct (Z.leb_spec maxBodySize (Z.of_nat (length body))) as [Hc|Hc]; [|lia].
Qed.

(** The size gate.  A body of more than [maxBodySize] bytes is answered
    413, and so is a body of exactly [maxBodySize] bytes, unless the
    stream breaks in the very [Read] that returns its last bytes: that
    request is answered 400.  A break that would be reported later is
    never seen, since the body is not read past the limit.  No other
    request is answered 413, and a request answered at the gate reaches
    no backend and leaves the load balancer alone. *)
Theorem handleOpenAIRequest_size_gate (apiType : string) (r : RequestBody)
    (lb : LoadBalancer) :
  let run := handleOpenAIRequest Unmarshal Marshal UnmarshalModel cfg env apiType r lb in
  (maxBodySize < Z.of_nat (length (sent r)) →
     run = (lb, [], JSON 413 "request body too large" None)) ∧
  (Z.of_nat (length (sent r)) = maxBodySize →
     (broken r && brokenWithData r = false →
        run = (lb, [], JSON 413 "request body too large" None)) ∧
     (broken r = true → brokenWithData r = true →
        run = (lb, [], JSON 400 "failed to read request body" None))) ∧
  (∀ err detail, run.2 = JSON 413 err detail →
     maxBodySize ≤ Z.of_nat (length (sent r)) ∧
     (Z.of_nat (length (sent r)) = maxBodySize →
        broken r && brokenWithData r = false)).
Proof.
  intros run. subst run. split_and!.
  - intros Hbig. eapply handleOpenAIRequest_too_large; [|lia].
    rewrite readBody_big by lia.
    by destruct (Z.eqb_spec (Z.of_nat (length (sent r))) maxBodySize); [lia|].
  - intros Heq. split.
    + intros Hclean. eapply handleOpenAIRequest_too_large; [|lia].
      rewrite readBody_big by lia. rewrite <- andb_assoc, Hclean.
      by rewrite andb_false_r.
    + intros Hbroken Hdata. unfold handleOpenAIRequest.
      rewrite readBody_big by lia. rewrite Hbroken, Hdata.
      by destruct (Z.eqb_spec (Z.of_nat (length (sent r))) maxBodySize); [|lia].
  - intros err detail. unfold handleOpenAIRequest.
    destruct (readBody r) as [body|] eqn:Hread; [|by intros [= ? _ _]].
    destruct (readBody_length r body Hread) as (Hlen & _ & Hend).
    destruct (Z.leb_spec maxBodySize (Z.of_nat (length body))) as [Hc|Hc];
      [intros _; split; [lia|done]|].
    case_decide; [by intros [= ? _ _]|].
    destruct (negb _); [by intros [= ? _ _]|].
    destruct (proxyWithModel _ _ _ _ _ _) as [[lb' log] out] eqn:Hrun. cbn.
    intros ->. by pose proof (proxyWithModel_JSON _ _ _ _ _ _ _ _ _ _ Hrun eq_refl).
Qed.

(** A request is turned away with 400 when its body cannot be read,
    when no model can be read from it, or when the model is not known
    to the load balancer. *)
Theorem handleOpenAIRequest_rejects (apiType : string) (r : RequestBody)
    (lb : LoadBalancer) :
  Z.of_nat (length (sent r)) < maxBodySize →
  let run := handleOpenAIRequest Unmarshal Marshal UnmarshalModel cfg env apiType r lb in
  (broken r = true →
     run = (lb, [], JSON 400 "failed to read request body" None)) ∧
  (broken r = false → extractModel UnmarshalModel (sent r) = "" →
     run = (lb, [], JSON 400 "model field is required" None)) ∧
  (broken r = false → extractModel UnmarshalModel (sent r) ≠ "" →
   HasModel (extractModel UnmarshalModel (sent r)) lb = false →
     run = (lb, [], JSON 400
                      ("model " +:+ extractModel UnmarshalModel (sent r)
                       +:+ " is not configured") None)).
Proof.
  intros Hsmall run. subst run. unfold handleOpenAIRequest.
  rewrite readBody_small by done.
  destruct (maxBodySize <=? Z.of_nat (length (sent r))) eqn:Hc;
    [apply Z.leb_le in Hc; lia|].
  split_and!.
  - by intros ->.
  - intros -> Hm. rewrite Hc. by rewrite decide_True.
  - intros -> Hm Hunknown. rewrite Hc, decide_False, Hunknown by done. done.
Qed.

Lemma handleOpenAIRequest_accepted (apiType : string) (r : RequestBody)
    (lb : LoadBalancer) :
  Z.of_nat (length (sent r)) < maxBodySize →
  broken r = false →
  extractModel UnmarshalModel (sent r) ≠ "" →
  HasModel (extractModel UnmarshalModel (sent r)) lb = true →
  handleOpenAIRequest Unmarshal Marshal UnmarshalModel cfg env apiType r lb =
  proxyWithModel cfg env (extractModel UnmarshalModel (sent r))
    (transformRequestBody Unmarshal Marshal (sent r)) apiType lb.
Proof.
  intros Hsmall Hbroken Hmodel Hknown.
  unfold handleOpenAIRequest. rewrite readBody_small by done.
  destruct (maxBodySize <=? Z.of_nat (length (sent r))) eqn:Hc;
    [apply Z.leb_le in Hc; lia|].
  by rewrite Hbroken, Hc, decide_False, Hknown by done.
Qed.

(** A response handed to a relay routine is the answer of the last
    attempt. *)
Lemma retryLoop_relayed model body apiType bs rem i lb lastErr lb' log out resp :
  retryLoop env model body apiType bs rem i lb lastErr = (lb', log, out) →
  out = NormalResponse resp ∨ out = StreamResponse resp →
  ∃ l, last log = Some l ∧ at_result l = Answered resp.
Proof.
  revert i lb lastErr lb' log out.
  induction rem as [|rem IH]; intros i lb lastErr lb' log out; cbn [retryLoop].
  { destruct lastErr; intros [= <- <- <-]; by intros [?|?]. }
  destruct (attempt_cases env model body apiType bs i lb)
    as [[_ ->]|[(_ & -> & _)|(p & s & _ & _ & _ & H)]];
    [intros [= <- <- <-]; by intros [?|?]..|].
  cbn in H.
  destruct (newRequestErr (env i)); [|destruct (doResult (env i)) as [e|resp'];
    [|destruct H as [[_ H]|[_ H]]]]; rewrite H.
  4: { intros [= <- <- <-] Hout. eexists. split; [done|]. cbn.
       by destruct (Contains _ _), Hout as [[= ->]|[= ->]]. }
  all: destruct (retryLoop _ _ _ _ bs rem (S i) _ _) as [[lb2 logs] out2] eqn:Hrec;
    intros [= <- <- <-] Hout;
    destruct (IH _ _ _ _ _ _ Hrec Hout) as (l & Hlast & Hres);
    exists l; by rewrite last_cons, Hlast.
Qed.

Lemma proxyWithModel_relayed model body apiType lb lb' log out resp :
  HasModel model lb = true →
  proxyWithModel cfg env model body apiType lb = (lb', log, out) →
  out = NormalResponse resp ∨ out = StreamResponse resp →
  ∃ l, last log = Some l ∧ at_result l = Answered resp ∧
       StatusCode resp < 500 ∧
       Healthy <$> deref lb' (at_backend l) = Some true.
Proof.
  intros Hknown Hrun Hout.
  apply HasModel_true in Hknown as [balancer Hb].
  assert (∃ l, last log = Some l ∧ at_result l = Answered resp) as (l & Hlast & Hres).
  { revert Hrun. unfold proxyWithModel. destruct (GetAllBackends model lb) as [r lb1].
    case_decide; [intros [= <- <- <-]; by destruct Hout|].
    intros Hloop. by eapply retryLoop_relayed. }
  exists l. split_and!; [done|done| |].
  - rewrite last_lookup in Hlast.
    destruct (proxyWithModel_entry _ _ _ _ _ _ _ _ _ _ Hb Hrun _ _ Hlast)
      as ([_ Hrec] & _).
    destruct (newRequestErr (env _)); [destruct Hrec; congruence|].
    destruct (doResult (env _)) as [e|resp']; [destruct Hrec; congruence|].
    destruct (Z.leb_spec 500 (StatusCode resp')); destruct Hrec as [Hres' _];
      [congruence|].
    rewrite Hres in Hres'. by injection Hres' as ->.
  - rewrite last_lookup in Hlast.
    destruct (proxyWithModel_entry _ _ _ _ _ _ _ _ _ _ Hb Hrun _ _ Hlast)
      as ([_ Hrec] & _).
    destruct (proxyWithModel_final_status _ _ _ _ _ _ _ _ _ _ Hb Hrun _ _ Hlast)
      as (-> & [s ->]).
    destruct (newRequestErr (env _)); [destruct Hrec; congruence|].
    destruct (doResult (env _)) as [e|resp']; [destruct Hrec; congruence|].
    destruct (500 <=? StatusCode resp'); destruct Hrec as [Hres' ->];
      [congruence|done].
Qed.

(** The JSON errors of a request.  The handler, with the routine it
    hands a whole response to, answers with a JSON error of status 400,
    413, 500 or 503 and no other.  A 400 or a 413 is an error of the
    client and never reaches a backend: it comes with no attempt and an
    unchanged load balancer.  A 500 says that the body of a backend's
    response could not be read: it comes after an attempt that was
    answered with a status below 500, and that backend has been marked
    healthy. *)
Theorem handleOpenAIRequest_json_errors (apiType : string) (r : RequestBody)
    (lb lb' : LoadBalancer) (log : list AttemptLog) (out : Outcome)
    (header : list (string * list string)) (readFails : bool)
    (code : Z) (err : string) :
  handleOpenAIRequest Unmarshal Marshal UnmarshalModel cfg env apiType r lb =
    (lb', log, out) →
  jsonError out header readFails = Some (code, err) →
  (code = 400 ∨ code = 413 ∨ code = 500 ∨ code = 503) ∧
  (code = 400 ∨ code = 413 → lb' = lb ∧ log = []) ∧
  (code = 500 →
     err = "failed to read response" ∧ readFails = true ∧
     ∃ l resp,
       out = NormalResponse resp ∧ last log = Some l ∧
       at_result l = Answered resp ∧ StatusCode resp < 500 ∧
       Healthy <$> deref lb' (at_backend l) = Some true).
Proof.
  unfold handleOpenAIRequest.
  destruct (readBody r) as [body|];
    [|intros [= <- <- <-] [= <- <-]; split_and!; [tauto|done|done]].
  destruct (maxBodySize <=? _);
    [intros [= <- <- <-] [= <- <-]; split_and!; [tauto|done|done]|].
  case_decide; [intros [= <- <- <-] [= <- <-]; split_and!; [tauto|done|done]|].
  destruct (HasModel _ lb) eqn:Hknown; cbn [negb];
    [|intros [= <- <- <-] [= <- <-]; split_and!; [tauto|done|done]].
  intros Hrun Herr. destruct out as [code' err' detail|resp|resp| |]; try done.
  - cbn in Herr. injection Herr as -> ->.
    pose proof (proxyWithModel_JSON _ _ _ _ _ _ _ _ _ _ Hrun eq_refl) as ->.
    split_and!; [tauto|by intros [?|?]|done].
  - cbn in Herr. destruct readFails; [|done]. injection Herr as <- <-.
    split_and!; [tauto|by intros [?|?]|]. intros _. split_and!; [done|done|].
    destruct (proxyWithModel_relayed _ _ _ _ _ _ _ resp Hknown Hrun)
      as (l & Hlast & Hres & Hstatus & Hhealthy); [by left|].
    by exists l, resp.
Qed.

Lemma proxyWithModel_log_requests model body apiType lb lb' log out l :
  HasModel model lb = true →
  proxyWithModel cfg env model body apiType lb = (lb', log, out) →
  l ∈ log →
  at_body l = body ∧ ref_model (at_backend l) = model.
Proof.
  intros Hknown Hrun Hl.
  apply list_elem_of_lookup in Hl as [j Hj].
  apply HasModel_true in Hknown as [balancer Hb].
  assert (Hn : length (backends balancer) ≠ 0%nat).
  { intros Hn. by rewrite (proxyWithModel_empty_log _ _ _ _ _ _ _ _ _ _ Hb Hrun Hn) in Hj. }
  edestruct proxyWithModel_loop as (Hloop & _); [exact Hb|exact Hrun|exact Hn|].
  edestruct retryLoop_entries as (_ & _ & Hbody & _); [exact Hloop|exact Hj|].
  split; [done|].
  edestruct proxyWithModel_entry as (_ & Hbs & _); [exact Hb|exact Hrun|exact Hj|].
  unfold failoverSequence in Hbs. apply list_lookup_fmap_Some in Hbs as (k & -> & _).
  done.
Qed.

(** What the backends receive: for a request that passes the checks,
    every attempt is made for the model named in the body, on a backend
    of that model, with the transformed body, the same for all
    attempts. *)
Theorem handleOpenAIRequest_forwards (apiType : string) (r : RequestBody)
    (lb lb' : LoadBalancer) (log : list AttemptLog) (out : Outcome) :
  Z.of_nat (length (sent r)) < maxBodySize →
  broken r = false →
  extractModel UnmarshalModel (sent r) ≠ "" →
  HasModel (extractModel UnmarshalModel (sent r)) lb = true →
  handleOpenAIRequest Unmarshal Marshal UnmarshalModel cfg env apiType r lb =
    (lb', log, out) →
  proxyWithModel cfg env (extractModel UnmarshalModel (sent r))
    (transformRequestBody Unmarshal Marshal (sent r)) apiType lb = (lb', log, out) ∧
  ∀ l, l ∈ log →
    at_body l = transformRequestBody Unmarshal Marshal (sent r) ∧
    ref_model (at_backend l) = extractModel UnmarshalModel (sent r).
Proof.
  intros Hsmall Hbroken Hmodel Hknown.
  rewrite handleOpenAIRequest_accepted by done.
  intros Hrun. split; [done|]. intros l Hl.
  by eapply proxyWithModel_log_requests.
Qed.

End request_facts.

Section clean_bodies.

Context {Value : Type}.
Variable Unmarshal : bytes → option (gmap string Value).
Variable Marshal : gmap string Value → option bytes.
Variable UnmarshalModel : bytes → option string.
Variable cfg : config.Config.
Variable env : nat → Attempt.

Hypothesis Marshal_total : ∀ data, is_Some (Marshal data).
Hypothesis Unmarshal_Marshal :
  ∀ data newBody, Marshal data = Some newBody → Unmarshal newBody = Some data.


End clean_bodies.

Lemma handleOpenAIRequest_size_gate_witness :
  handleOpenAIRequest wire.Unmarshal wire.Marshal sample_more.wireModel
    sample.cfgTwo sample.envFailover "chat/completions"
    (mkRequestBody (replicate (Z.to_nat maxBodySize) Byte.x00) true true)
    sample.lbTwo =
  (sample.lbTwo, [], JSON 400 "failed to read request body" None).
Proof.
  destruct (handleOpenAIRequest_size_gate wire.Unmarshal wire.Marshal
              sample_more.wireModel sample.cfgTwo sample.envFailover
              "chat/completions"
              (mkRequestBody (replicate (Z.to_nat maxBodySize) Byte.x00) true true)
              sample.lbTwo) as (_ & Hexact & _).
  apply Hexact; [|reflexivity|reflexivity].
  cbn [sent]. rewrite length_replicate. unfold maxBodySize. lia.
Defined.

Lemma handleOpenAIRequest_json_errors_witness :
  ∃ lb' log l resp,
    handleOpenAIRequest wire.Unmarshal wire.Marshal sample_more.wireModel
      sample.cfgTwo sample.envFailover "chat/completions"
      (mkRequestBody wire.legacyBody false false) sample.lbTwo =
      (lb', log, NormalResponse resp) ∧
    jsonError (NormalResponse resp) [] true = Some (500, "failed to read response") ∧
    last log = Some l ∧ at_result l = Answered resp ∧
    Healthy <$> deref lb' (at_backend l) = Some true.
Proof.
  destruct (handleOpenAIRequest wire.Unmarshal wire.Marshal sample_more.wireModel
              sample.cfgTwo sample.envFailover "chat/completions"
              (mkRequestBody wire.legacyBody false false) sample.lbTwo)
    as [[lb' log] out] eqn:Hrun.
  assert (Hout : out = NormalResponse sample.ok).
  { vm_compute in Hrun. injection Hrun as _ _ <-. reflexivity. }
  destruct (handleOpenAIRequest_json_errors wire.Unmarshal wire.Marshal
              sample_more.wireModel sample.cfgTwo sample.envFailover
              "chat/completions" (mkRequestBody wire.legacyBody false false)
              sample.lbTwo lb' log out [] true 500 "failed to read response" Hrun)
    as (_ & _ & Hread); [by rewrite Hout|].
  destruct Hread as (_ & _ & l & resp & Hresp & Hlast & Hres & _ & Hhealthy);
    [reflexivity|].
  exists lb', log, l, resp. rewrite <- Hresp.
  split_and!; [reflexivity|by rewrite Hout|exact Hlast|exact Hres|exact Hhealthy].
Defined.

Lemma handleOpenAIRequest_rejects_witness :
  handleOpenAIRequest wire.Unmarshal wire.Marshal sample_more.wireModel
    sample.cfgTwo sample.envFailover "chat/completions"
    (mkRequestBody wire.legacyBody true false) sample.lbTwo =
  (sample.lbTwo, [], JSON 400 "failed to read request body" None).
Proof.
  apply (handleOpenAIRequest_rejects wire.Unmarshal wire.Marshal sample_more.wireModel
           sample.cfgTwo sample.envFailover "chat/completions"
           (mkRequestBody wire.legacyBody true false) sample.lbTwo).
  - vm_compute. reflexivity.
  - reflexivity.
Defined.

Lemma handleOpenAIRequest_forwards_witness :
  ∃ lb' log out l,
    handleOpenAIRequest wire.Unmarshal wire.Marshal sample_more.wireModel
      sample.cfgTwo sample.envFailover "chat/completions"
      (mkRequestBody wire.legacyBody false false) sample.lbTwo = (lb', log, out) ∧
    log !! 0%nat = Some l ∧
    at_body l = transformRequestBody wire.Unmarshal wire.Marshal wire.legacyBody.
Proof.
  destruct (handleOpenAIRequest wire.Unmarshal wire.Marshal sample_more.wireModel
              sample.cfgTwo sample.envFailover "chat/completions"
              (mkRequestBody wire.legacyBody false false) sample.lbTwo)
    as [[lb' log] out] eqn:Hrun.
  assert (Hl : ∃ l, log !! 0%nat = Some l).
  { vm_compute in Hrun. injection Hrun as _ <- _. eexists. reflexivity. }
  destruct Hl as [l Hl].
  destruct (handleOpenAIRequest_forwards wire.Unmarshal wire.Marshal
              sample_more.wireModel sample.cfgTwo sample.envFailover
              "chat/completions" (mkRequestBody wire.legacyBody false false)
              sample.lbTwo lb' log out) as [_ Hlog];
    [vm_compute; reflexivity|reflexivity|vm_compute; discriminate|
     vm_compute; reflexivity|exact Hrun|].
  exists lb', log, out, l. split_and!; [reflexivity|exact Hl|].
  apply Hlog. by eapply list_elem_of_lookup_2.
Defined.


(** ** The streaming relay *)

Lemma Stream_prefix (clientGone writeOk : nat → bool) (reads : list ReadResult)
    (i : nat) :
  concat (Stream clientGone writeOk reads i) `prefix_of` concat (rd_data <$> reads).
Proof.
  revert i. induction reads as [|rd reads IH]; intros i; [done|].
  cbn [Stream fmap list_fmap concat]. destruct (clientGone i); [apply prefix_nil|].
  unfold streamStep.
  destruct (0 <? length (rd_data rd))%nat eqn:Hlen.
  - destruct (writeOk i); [|apply prefix_nil].
    cbn [option_list app concat]. apply prefix_app.
    case_bool_decide; [apply IH|apply prefix_nil].
  - apply Nat.ltb_ge in Hlen.
    assert (rd_data rd = []) as -> by (destruct (rd_data rd); [done|cbn in *; lia]).
    cbn. case_bool_decide; [apply IH|apply prefix_nil].
Qed.

Lemma Stream_all (clientGone writeOk : nat → bool) (good : list ReadResult)
    (final : ReadResult) (i : nat) :
  (∀ j, clientGone j = false) → (∀ j, writeOk j = true) →
  Forall (λ rd, rd_err rd = None) good → is_Some (rd_err final) →
  ∀ later,
    concat (Stream clientGone writeOk (good ++ final :: later) i) =
    concat (rd_data <$> good ++ [final]).
Proof.
  intros Hgone Hok Hgood [e He] later. revert i.
  induction Hgood as [|rd good Hrd _ IH]; intros i.
  - cbn [app Stream]. rewrite Hgone. unfold streamStep. rewrite Hok, He.
    rewrite bool_decide_eq_false_2 by done.
    destruct (0 <? length (rd_data final))%nat eqn:Hlen; cbn; [done|].
    apply Nat.ltb_ge in Hlen.
    by destruct (rd_data final); [|cbn in *; lia].
  - cbn [app Stream]. rewrite Hgone. unfold streamStep. rewrite Hok, Hrd.
    rewrite bool_decide_eq_true_2 by done.
    destruct (0 <? length (rd_data rd))%nat eqn:Hlen; cbn [option_list app].
    + cbn. by rewrite IH.
    + apply Nat.ltb_ge in Hlen.
      assert (rd_data rd = []) as Hnil by (destruct (rd_data rd); [done|cbn in *; lia]).
      cbn. by rewrite IH, Hnil.
Qed.

Lemma Stream_chunks (clientGone writeOk : nat → bool) (reads : list ReadResult)
    (i : nat) :
  Forall (λ rd, (length (rd_data rd) ≤ streamBufferSize)%nat) reads →
  Forall (λ chunk, (0 < length chunk ≤ streamBufferSize)%nat)
         (Stream clientGone writeOk reads i).
Proof.
  intros Hreads. revert i.
  induction Hreads as [|rd reads Hrd _ IH]; intros i; [constructor|].
  cbn [Stream]. destruct (clientGone i); [constructor|].
  unfold streamStep.
  destruct (0 <? length (rd_data rd))%nat eqn:Hlen.
  - apply Nat.ltb_lt in Hlen. destruct (writeOk i); [|constructor].
    cbn. constructor; [lia|]. case_bool_decide; [apply IH|constructor].
  - cbn. case_bool_decide; [apply IH|constructor].
Qed.

(** The streaming relay passes the body on byte for byte and in order.
    Whatever happens, what the caller has received is a beginning of
    what the backend sent.  When the caller stays and every write
    succeeds, the caller receives everything up to and including the
    data of the first read that reports the end of the stream or an
    error, and nothing after it.  Every chunk written is non-empty and
    no longer than the buffer. *)
Theorem handleStreamResponse_relays (clientGone writeOk : nat → bool)
    (reads : list ReadResult) :
  concat (handleStreamResponse clientGone writeOk reads).2
    `prefix_of` concat (rd_data <$> reads) ∧
  (Forall (λ rd, (length (rd_data rd) ≤ streamBufferSize)%nat) reads →
   Forall (λ chunk, (0 < length chunk ≤ streamBufferSize)%nat)
          (handleStreamResponse clientGone writeOk reads).2) ∧
  ((∀ j, clientGone j = false) → (∀ j, writeOk j = true) →
   ∀ good final later,
     reads = good ++ final :: later →
     Forall (λ rd, rd_err rd = None) good → is_Some (rd_err final) →
     concat (handleStreamResponse clientGone writeOk reads).2 =
       concat (rd_data <$> good ++ [final])).
Proof.
  unfold handleStreamResponse. cbn [snd]. split_and!.
  - apply Stream_prefix.
  - apply Stream_chunks.
  - intros Hgone Hok good final later -> Hgood Hfinal. by apply Stream_all.
Qed.

Lemma handleStreamResponse_relays_witness :
  concat (handleStreamResponse sample_more.never sample_more.always
            sample_more.twoChunks).2 =
  [Byte.x64; Byte.x61; Byte.x74; Byte.x61].
Proof.
  destruct (handleStreamResponse_relays sample_more.never sample_more.always
              sample_more.twoChunks) as (_ & _ & Hall).
  rewrite (Hall (λ _, eq_refl) (λ _, eq_refl)
             [mkRead [Byte.x64; Byte.x61] None; mkRead [Byte.x74; Byte.x61] None]
             (mkRead [] (Some EOF)) [] eq_refl).
  - reflexivity.
  - repeat constructor.
  - by eexists.
Defined.

(** ** API keys *)

Lemma ConstantTimeCompare_eq (x y : string) :
  (config.ConstantTimeCompare x y =? 1) = true ↔ x = y.
Proof.
  unfold config.ConstantTimeCompare.
  destruct (String.eqb_spec x y) as [->|Hne]; [done|].
  split; [done|]. by intros ->.
Qed.

Lemma matchKey_found (key name : string) (keys : list config.APIKeyConfig) :
  config.matchKey key keys = (name, true) ↔
  ∃ before k after,
    keys = before ++ k :: after ∧ config.Key k = key ∧ config.Name k = name ∧
    Forall (λ k', config.Key k' ≠ key) before.
Proof.
  induction keys as [|k0 keys IH]; cbn [config.matchKey].
  - split; [done|]. intros (before & k & after & Heq & _). by destruct before.
  - destruct (config.ConstantTimeCompare key (config.Key k0) =? 1) eqn:Hc.
    + apply ConstantTimeCompare_eq in Hc. split.
      * intros [= <-]. by exists [], k0, keys.
      * intros (before & k & after & Heq & Hk & Hname & Hbefore).
        destruct before as [|b before]; cbn in Heq.
        -- injection Heq as -> _. by rewrite Hname.
        -- injection Heq as -> _. apply Forall_cons_1 in Hbefore as [Hb _]. done.
    + assert (key ≠ config.Key k0) as Hne.
      { intros Heq. apply ConstantTimeCompare_eq in Heq. congruence. }
      rewrite IH. split.
      * intros (before & k & after & -> & Hk & Hname & Hbefore).
        exists (k0 :: before), k, after. split_and!; [done|done|done|].
        constructor; [done|done].
      * intros (before & k & after & Heq & Hk & Hname & Hbefore).
        destruct before as [|b before]; cbn in Heq.
        -- injection Heq as -> _. done.
        -- injection Heq as -> ->. apply Forall_cons_1 in Hbefore as [_ Hbefore].
           by exists before, k, after.
Qed.

Lemma matchKey_missing (key : string) (keys : list config.APIKeyConfig) :
  (config.matchKey key keys).2 = false ↔
  Forall (λ k, config.Key k ≠ key) keys.
Proof.
  induction keys as [|k0 keys IH]; cbn [config.matchKey].
  - split; [constructor|done].
  - destruct (config.ConstantTimeCompare key (config.Key k0) =? 1) eqn:Hc.
    + apply ConstantTimeCompare_eq in Hc. split; [done|].
      intros [Hk _]%Forall_cons_1. done.
    + rewrite IH. split.
      * intros Hrest. constructor; [|done].
        intros Heq. symmetry in Heq. apply ConstantTimeCompare_eq in Heq. congruence.
      * by intros [_ Hrest]%Forall_cons_1.
Qed.

Lemma matchKey_name (key : string) (keys : list config.APIKeyConfig) :
  (config.matchKey key keys).2 = false → config.matchKey key keys = (EmptyString, false).
Proof.
  induction keys as [|k0 keys IH]; cbn [config.matchKey]; [done|].
  by destruct (config.ConstantTimeCompare key (config.Key k0) =? 1).
Qed.

(** [ValidateAPIKey] accepts exactly the configured keys, and names the
    caller after the first entry of the list that holds the key.
    Authentication that is switched off, or switched on with no key
    configured, accepts every key under the empty name. *)
Theorem ValidateAPIKey_accepts_configured (auth : config.AuthConfig)
    (key : string) :
  (config.IsAuthEnabled auth = false ↔
     config.Enabled auth = false ∨ config.Keys auth = []) ∧
  (config.IsAuthEnabled auth = false →
     config.ValidateAPIKey auth key = (EmptyString, true)) ∧
  (config.IsAuthEnabled auth = true →
     (∀ name, config.ValidateAPIKey auth key = (name, true) ↔
        ∃ before k after,
          config.Keys auth = before ++ k :: after ∧
          config.Key k = key ∧ config.Name k = name ∧
          Forall (λ k', config.Key k' ≠ key) before) ∧
     ((config.ValidateAPIKey auth key).2 = false ↔
        Forall (λ k, config.Key k ≠ key) (config.Keys auth))).
Proof.
  unfold config.ValidateAPIKey. split_and!.
  - unfold config.IsAuthEnabled.
    destruct (config.Enabled auth), (config.Keys auth) as [|k keys]; cbn;
      split; try done; try (by left); try (by right); by intros [?|?].
  - by intros ->.
  - intros ->. cbn [negb]. split.
    + intros name. apply matchKey_found.
    + apply matchKey_missing.
Qed.

Lemma ValidateAPIKey_accepts_configured_witness :
  config.ValidateAPIKey sample_more.keys "sk-beta-0123456789" = ("team-b", true).
Proof.
  destruct (ValidateAPIKey_accepts_configured sample_more.keys "sk-beta-0123456789")
    as (_ & _ & Hon).
  destruct Hon as [Hfound _]; [reflexivity|].
  apply Hfound.
  exists [config.mkAPIKeyConfig "team-a" "sk-alpha-0123456789"],
         (config.mkAPIKeyConfig "team-b" "sk-beta-0123456789"), [].
  split_and!; [reflexivity|reflexivity|reflexivity|].
  constructor; [vm_compute; discriminate|constructor].
Defined.

Import middleware.

Lemma length_substring (n : nat) (s : string) :
  (n ≤ String.length s)%nat → String.length (String.substring 0 n s) = n.
Proof.
  revert s. induction n as [|n IH]; intros s Hn.
  - by destruct s.
  - destruct s as [|c s]; cbn in *; [lia|]. rewrite IH; [done|lia].
Qed.

Lemma length_append (s t : string) :
  String.length (s +:+ t) = (String.length s + String.length t)%nat.
Proof.
  induction s as [|c s IH]; [done|].
  change (String.length (String c (s +:+ t)) = S (String.length s + String.length t)).
  cbn [String.length]. by rewrite IH.
Qed.

Lemma substring_append (p rest : string) :
  String.substring 0 (String.length p) (p +:+ rest) = p.
Proof.
  induction p as [|c p IH]; [by destruct rest|].
  change (String c (String.substring 0 (String.length p) (p +:+ rest)) = String c p).
  by rewrite IH.
Qed.

(** The masked key that goes to the log shows the first eight bytes of
    a key and nothing else: it has at most eleven bytes, a key of up to
    eight bytes is hidden completely, and two longer keys that start
    with the same eight bytes are masked alike. *)
Theorem maskAPIKey_shows_eight_bytes (key : string) :
  (String.length (maskAPIKey key) ≤ 11)%nat ∧
  ((String.length key ≤ 8)%nat → maskAPIKey key = "***") ∧
  (∀ shown rest,
     key = shown +:+ rest → String.length shown = 8%nat → rest ≠ "" →
     maskAPIKey key = shown +:+ "***" ∧
     ∀ other, other ≠ "" → maskAPIKey (shown +:+ other) = maskAPIKey key).
Proof.
  assert (Hlong : ∀ shown rest, String.length shown = 8%nat → rest ≠ "" →
                    maskAPIKey (shown +:+ rest) = shown +:+ "***").
  { intros shown rest Hshown Hrest. unfold maskAPIKey.
    rewrite length_append, Hshown.
    destruct rest as [|c rest]; [done|]. cbn [String.length].
    replace (8 + S (String.length rest) <=? 8)%nat with false
      by (symmetry; apply Nat.leb_gt; lia).
    by rewrite <- Hshown, substring_append. }
  split_and!.
  - unfold maskAPIKey. destruct (String.length key <=? 8)%nat eqn:Hlen; [cbn; lia|].
    apply Nat.leb_gt in Hlen. rewrite length_append, length_substring by lia.
    cbn. lia.
  - intros Hlen. unfold maskAPIKey.
    by replace (String.length key <=? 8)%nat with true
      by (symmetry; apply Nat.leb_le; lia).
  - intros shown rest -> Hshown Hrest. split; [by apply Hlong|].
    intros other Hother. by rewrite !Hlong.
Qed.

Lemma maskAPIKey_shows_eight_bytes_witness :
  maskAPIKey "sk-alpha-0123456789" = "sk-alpha***".
Proof.
  destruct (maskAPIKey_shows_eight_bytes "sk-alpha-0123456789") as (_ & _ & Hlong).
  destruct (Hlong "sk-alpha" "-0123456789") as [Hmask _];
    [reflexivity|reflexivity|discriminate|exact Hmask].
Defined.

Lemma stripPrefix_append (prefix rest : string) :
  stripPrefix prefix (prefix +:+ rest) = Some rest.
Proof.
  induction prefix as [|c prefix IH]; [done|].
  change ((if Ascii.eqb c c then stripPrefix prefix (prefix +:+ rest) else None) =
          Some rest).
  by rewrite Ascii.eqb_refl.
Qed.

Lemma HasPrefix_append (prefix rest : string) :
  HasPrefix (prefix +:+ rest) prefix = true.
Proof.
  unfold HasPrefix. induction prefix as [|c prefix IH]; [by destruct rest|].
  change ((if Ascii.ascii_dec c c then String.prefix prefix (prefix +:+ rest)
           else false) = true).
  by destruct (Ascii.ascii_dec c c).
Qed.

Lemma String_eqb_false (s t : string) : s ≠ t → String.eqb s t = false.
Proof. intros Hne. by destruct (String.eqb_spec s t). Qed.

(** Where the key is taken from.  A bearer token in [Authorization]
    wins over the two key headers, also when the token is empty; an
    [Authorization] header of another scheme is ignored; of the two key
    headers [api-key] wins, and an empty one counts as absent. *)
Theorem extractAPIKey_precedence (GetHeader : string → string) :
  (∀ token, GetHeader "Authorization" = "Bearer " +:+ token →
     extractAPIKey GetHeader = token) ∧
  (HasPrefix (GetHeader "Authorization") "Bearer " = false →
     (GetHeader "api-key" ≠ "" → extractAPIKey GetHeader = GetHeader "api-key") ∧
     (GetHeader "api-key" = "" → extractAPIKey GetHeader = GetHeader "x-api-key")).
Proof.
  unfold extractAPIKey. split.
  - intros token ->. rewrite HasPrefix_append.
    unfold TrimPrefix. by rewrite stripPrefix_append.
  - intros ->. rewrite andb_false_r. split.
    + intros Hkey. by rewrite String_eqb_false.
    + intros ->. cbn. by destruct (String.eqb_spec (GetHeader "x-api-key") "").
Qed.

Lemma extractAPIKey_precedence_witness :
  extractAPIKey sample_more.bearer = "sk-beta-0123456789".
Proof.
  destruct (extractAPIKey_precedence sample_more.bearer) as [Hbearer _].
  apply Hbearer. reflexivity.
Defined.

Lemma Auth_enabled (auth : config.AuthConfig) (GetHeader : string → string) :
  config.IsAuthEnabled auth = true →
  Auth auth GetHeader =
    if String.eqb (extractAPIKey GetHeader) EmptyString then
      Abort StatusUnauthorized
        "Missing API key. Please include your API key in the Authorization header using Bearer scheme, or in the api-key/x-api-key header."
        "invalid_request_error" "missing_api_key" None
    else
      let '(keyName, valid) :=
        config.matchKey (extractAPIKey GetHeader) (config.Keys auth) in
      if negb valid then
        Abort StatusUnauthorized "Invalid API key provided."
          "invalid_request_error" "invalid_api_key"
          (Some (maskAPIKey (extractAPIKey GetHeader)))
      else Next (Some keyName).
Proof. intros Hon. unfold Auth, config.ValidateAPIKey. by rewrite Hon. Qed.

(** With authentication on, [Auth] lets a request through exactly when
    the key it carries is not empty and is one of the configured keys,
    and then records the name of the first entry that holds the key.
    Every other request is answered 401: as a missing key when the key
    is empty, as an invalid key otherwise, and only then is the masked
    key logged.  An empty key is never accepted, also when the
    configuration lists an empty key. *)
Theorem Auth_admits_configured_keys (auth : config.AuthConfig)
    (GetHeader : string → string) :
  config.IsAuthEnabled auth = true →
  let apiKey := extractAPIKey GetHeader in
  (∀ keyName, Auth auth GetHeader = Next keyName ↔
     apiKey ≠ "" ∧
     ∃ before k after,
       config.Keys auth = before ++ k :: after ∧ config.Key k = apiKey ∧
       keyName = Some (config.Name k) ∧
       Forall (λ k', config.Key k' ≠ apiKey) before) ∧
  (∀ status message type code masked_key,
     Auth auth GetHeader = Abort status message type code masked_key →
     status = 401 ∧ type = "invalid_request_error" ∧
     (apiKey = "" ∧ code = "missing_api_key" ∧ masked_key = None ∨
      apiKey ≠ "" ∧ Forall (λ k, config.Key k ≠ apiKey) (config.Keys auth) ∧
      code = "invalid_api_key" ∧ masked_key = Some (maskAPIKey apiKey))).
Proof.
  intros Hon apiKey. rewrite (Auth_enabled auth GetHeader Hon). fold apiKey.
  destruct (String.eqb_spec apiKey "") as [Hempty|Hkey].
  - split.
    + intros keyName. split; [done|]. by intros [? _].
    + intros status message type code masked_key [= <- <- <- <- <-].
      split_and!; [done|done|]. by left.
  - destruct (config.matchKey apiKey (config.Keys auth)) as [name valid] eqn:Hmatch.
    destruct valid; cbn [negb].
    + split; [|done]. intros keyName. split.
      * intros [= <-]. split; [done|].
        apply matchKey_found in Hmatch as (before & k & after & ? & ? & <- & ?).
        by exists before, k, after.
      * intros (_ & before & k & after & Hkeys & Hk & -> & Hbefore).
        assert (config.matchKey apiKey (config.Keys auth) = (config.Name k, true)) as Hm.
        { apply matchKey_found. by exists before, k, after. }
        congruence.
    + assert (Forall (λ k, config.Key k ≠ apiKey) (config.Keys auth)) as Hmiss.
      { apply matchKey_missing. by rewrite Hmatch. }
      split.
      * intros keyName. split; [done|].
        intros (_ & before & k & after & Hkeys & Hk & _ & _).
        rewrite Hkeys in Hmiss. apply Forall_app in Hmiss as [_ Hmiss].
        apply Forall_cons_1 in Hmiss as [Hbad _]. done.
      * intros status message type code masked_key [= <- <- <- <- <-].
        split_and!; [done|done|]. by right.
Qed.

Lemma Auth_admits_configured_keys_witness :
  Auth sample_more.keys sample_more.bearer = Next (Some "team-b").
Proof.
  destruct (Auth_admits_configured_keys sample_more.keys sample_more.bearer)
    as [Hnext _]; [reflexivity|].
  apply Hnext. split; [vm_compute; discriminate|].
  exists [config.mkAPIKeyConfig "team-a" "sk-alpha-0123456789"],
         (config.mkAPIKeyConfig "team-b" "sk-beta-0123456789"), [].
  split_and!; [reflexivity|reflexivity|reflexivity|].
  constructor; [vm_compute; discriminate|constructor].
Defined.

(** An [Authorization] header that is the bare scheme, a bearer token
    of no bytes, makes the request count as carrying no key: with
    authentication on it is answered 401 [missing_api_key] even when
    [api-key] or [x-api-key] holds a configured key. *)
Theorem Auth_empty_bearer_hides_key_headers (auth : config.AuthConfig)
    (GetHeader : string → string) :
  config.IsAuthEnabled auth = true →
  GetHeader "Authorization" = "Bearer " →
  ∃ message,
    Auth auth GetHeader =
      Abort 401 message "invalid_request_error" "missing_api_key" None.
Proof.
  intros Hon Hauth. rewrite (Auth_enabled auth GetHeader Hon).
  assert (extractAPIKey GetHeader = "") as ->.
  { unfold extractAPIKey. by rewrite Hauth. }
  by eexists.
Qed.

Lemma Auth_empty_bearer_hides_key_headers_witness :
  ∃ message,
    Auth sample_more.keys
      (λ header, if String.eqb header "Authorization" then "Bearer "
                 else "sk-beta-0123456789") =
    Abort 401 message "invalid_request_error" "missing_api_key" None.
Proof.
  apply Auth_empty_bearer_hides_key_headers; reflexivity.
Defined.

(** ** The routes under /v1 *)

(** With authentication in force, a request that carries no key, or a
    key that is not configured, never reaches a handler: whatever the
    handler is, no backend is called, the store of backend statuses
    stays as it is, and the answer is the 401 of [Auth].  Every other
    request, that is, any request when authentication is not in force
    and a request with a configured key when it is, reaches the
    handler, and what comes back is what the handler does, behind
    [Recovery]. *)
Theorem v1_rejects_before_handler (auth : config.AuthConfig)
    (GetHeader : string → string)
    (handler : LoadBalancer → LoadBalancer * list handlers.AttemptLog * handlers.Outcome)
    (lb : LoadBalancer) :
  let apiKey := extractAPIKey GetHeader in
  let unknown :=
    apiKey = "" ∨ Forall (λ k, config.Key k ≠ apiKey) (config.Keys auth) in
  (config.IsAuthEnabled auth = true → unknown →
     ∃ message type code masked_key,
       routes.v1 auth GetHeader handler lb =
         (lb, [], (Abort 401 message type code masked_key, None))) ∧
  (config.IsAuthEnabled auth = false ∨ ¬ unknown →
     ∃ keyName,
       routes.v1 auth GetHeader handler lb =
         ((handler lb).1.1, (handler lb).1.2,
          (Next keyName, Some (Recovery (handler lb).2)))).
Proof.
  intros apiKey unknown. subst unknown. unfold routes.v1. split.
  - intros Hon Hbad. rewrite (Auth_enabled auth GetHeader Hon). fold apiKey.
    destruct (String.eqb_spec apiKey "") as [Hempty|Hkey];
      [by eexists _, _, _, _|].
    destruct Hbad as [?|Hmiss]; [done|].
    apply matchKey_missing, matchKey_name in Hmiss. rewrite Hmiss. cbn.
    by eexists _, _, _, _.
  - intros Hpass. destruct (config.IsAuthEnabled auth) eqn:Hon.
    + destruct Hpass as [?|Hknown]; [done|].
      rewrite (Auth_enabled auth GetHeader Hon). fold apiKey.
      destruct (String.eqb_spec apiKey "") as [Hempty|Hkey];
        [destruct Hknown; by left|].
      destruct (config.matchKey apiKey (config.Keys auth)) as [name valid] eqn:Hm.
      destruct valid; cbn [negb].
      * exists (Some name). by destruct (handler lb) as [[lb' log] out].
      * destruct Hknown. right. apply matchKey_missing. by rewrite Hm.
    + unfold Auth. rewrite Hon. cbn [negb].
      exists None. by destruct (handler lb) as [[lb' log] out].
Qed.

Lemma v1_rejects_before_handler_witness :
  ∃ message type code masked_key,
    routes.v1 sample_more.keys sample_more.anonymous
      (handlers.HandleChatCompletions wire.Unmarshal wire.Marshal
         sample_more.wireModel sample.cfgTwo sample.envFailover
         (handlers.mkRequestBody wire.legacyBody false false))
      sample.lbTwo =
    (sample.lbTwo, [], (Abort 401 message type code masked_key, None)).
Proof.
  apply v1_rejects_before_handler; [reflexivity|left; reflexivity].
Defined.

(** A retry policy that allows no attempt makes the handler panic on
    the nil [lastErr]; behind [Recovery] the caller of a well-formed
    request for a configured model gets a 500, no backend is called and
    the store stays as it is. *)
Theorem v1_recovers_from_panic {Value : Type}
    (Unmarshal : bytes → option (gmap string Value))
    (Marshal : gmap string Value → option bytes)
    (UnmarshalModel : bytes → option string)
    (cfg : config.Config) (env : nat → handlers.Attempt)
    (auth : config.AuthConfig) (GetHeader : string → string)
    (apiType : string) (r : handlers.RequestBody) (lb : LoadBalancer)
    (keyName : option string) (balancer : ModelBalancer) :
  Auth auth GetHeader = Next keyName →
  Z.of_nat (length (handlers.sent r)) < handlers.maxBodySize →
  handlers.broken r = false →
  handlers.extractModel UnmarshalModel (handlers.sent r) ≠ "" →
  lb !! handlers.extractModel UnmarshalModel (handlers.sent r) = Some balancer →
  backends balancer ≠ [] →
  config.MaxAttempts (config.Retry cfg) ≤ 0 →
  routes.v1 auth GetHeader
    (handlers.handleOpenAIRequest Unmarshal Marshal UnmarshalModel cfg env apiType r)
    lb =
  (lb, [], (Next keyName,
            Some (handlers.JSON 500 "internal server error" None))).
Proof.
  intros Hauth Hsmall Hbroken Hmodel Hlb Hne Hmax.
  unfold routes.v1. rewrite Hauth.
  rewrite handleOpenAIRequest_accepted;
    [|done|done|done|apply HasModel_true; by eexists].
  by rewrite (proxyWithModel_no_attempt_allowed cfg env _ _ apiType lb
                balancer Hlb Hne Hmax).
Qed.

Lemma v1_recovers_from_panic_witness :
  routes.v1 sample_more.keys sample_more.bearer
    (handlers.handleOpenAIRequest wire.Unmarshal wire.Marshal sample_more.wireModel
       sample.cfgNoAttempt sample.envFailover "chat/completions"
       (handlers.mkRequestBody wire.legacyBody false false))
    sample.lbTwo =
  (sample.lbTwo, [], (Next (Some "team-b"),
                      Some (handlers.JSON 500 "internal server error" None))).
Proof.
  apply (v1_recovers_from_panic wire.Unmarshal wire.Marshal sample_more.wireModel
           sample.cfgNoAttempt sample.envFailover sample_more.keys sample_more.bearer
           "chat/completions" (handlers.mkRequestBody wire.legacyBody false false)
           sample.lbTwo (Some "team-b") sample.poolTwo).
  - vm_compute. reflexivity.
  - vm_compute. reflexivity.
  - reflexivity.
  - vm_compute. discriminate.
  - vm_compute. reflexivity.
  - discriminate.
  - vm_compute. discriminate.
Defined.
